(** * RTL-SDR real-time waterfall: a shallow embedding of [src/main.py]

    The program is one Qt window class, [WaterfallApp].  Its numeric core
    is the body of [update_once] (read a block of IQ samples, windowed
    FFT, power in dB, adaptive level, scrolling matrix), together with
    [apply_settings] (reconfiguration) and [update_freq_axis] (column to
    frequency mapping).

    Numbers.  In the model of the methods, numpy's [float32]/[complex64]
    arrays and Python's [float] are read as exact real numbers of the
    standard library ([R]); a complex sample is a pair of reals, and a
    precision cast ([astype]) is the identity.  What is proved on this
    model are shapes, control flow, exceptions and formula identities,
    which hold of the program up to rounding.  Where rounding decides the
    matter, the bounds of the clipped row of line 200, the same lines are
    followed on IEEE 754 values (module [Ieee]), with the cast to single
    precision as the rounding it is.

    Everything that depends on array shapes (broadcasting, padding by
    [fft], slice assignment) and on Python exceptions is modelled as numpy
    and Python define it.  A text is a string of bytes, its UTF-8
    encoding. *)

From Stdlib Require Import String Ascii.
From Stdlib Require Import Reals Lra Lia Arith ZArith Bool List.
From Stdlib Require Import Permutation Sorted.
From Stdlib Require Import SpecFloat.
Import ListNotations.

Set Warnings "-abstract-large-number".

Local Open Scope R_scope.

(* ================================================================== *)
(** * Exceptions and outcomes *)

(** The Python exceptions the modelled code can raise. *)
Inductive exn : Type :=
| ValueError         (* numpy: shapes cannot be broadcast, bad FFT size;
                        Python: float() of a malformed string *)
| IndexError         (* index out of bounds *)
| ZeroDivisionError  (* Python float division by zero *)
| IOError.           (* the device read failed *)

Inductive outcome (A : Type) : Type :=
| Ok (a : A)
| Raise (e : exn).
Arguments Ok {A} a.
Arguments Raise {A} e.

Definition obind {A B} (o : outcome A) (k : A -> outcome B) : outcome B :=
  match o with
  | Ok a => k a
  | Raise e => Raise e
  end.

Declare Scope outcome_scope.
Delimit Scope outcome_scope with outcome.
Notation "x <- o ;; k" := (obind o (fun x => k))
  (at level 61, o at next level, right associativity) : outcome_scope.

(* ================================================================== *)
(** * Complex samples *)

Module Cplx.

Definition C : Type := (R * R)%type.

Definition zero : C := (0, 0).
Definition add (a b : C) : C := (fst a + fst b, snd a + snd b).
Definition sub (a b : C) : C := (fst a - fst b, snd a - snd b).
Definition mul (a b : C) : C :=
  (fst a * fst b - snd a * snd b, fst a * snd b + snd a * fst b).
(** complex times real, as in [iq * self.window] *)
Definition scale (a : C) (w : R) : C := (fst a * w, snd a * w).
(** complex divided by a count, as in [np.mean] *)
Definition div_n (a : C) (n : nat) : C := (fst a / INR n, snd a / INR n).
(** [np.abs] *)
Definition abs (a : C) : R := sqrt (fst a * fst a + snd a * snd a).
(** [exp(i*theta)] *)
Definition cis (theta : R) : C := (cos theta, sin theta).

Definition sum (l : list C) : C := fold_right add zero l.

End Cplx.
Import Cplx.

(* ================================================================== *)
(** * The numpy operations used by the program *)

Module Np.

(** Elementwise binary operation on two one-dimensional arrays, with
    numpy's broadcasting rule: equal lengths combine pointwise, a
    length-one operand is stretched, anything else raises [ValueError]
    ("operands could not be broadcast together"). *)
Fixpoint zip_with {A B D} (f : A -> B -> D) (a : list A) (b : list B) : list D :=
  match a, b with
  | x :: a', y :: b' => f x y :: zip_with f a' b'
  | _, _ => []
  end.

Definition broadcast2 {A B D} (f : A -> B -> D) (a : list A) (b : list B)
  : outcome (list D) :=
  if (length a =? length b)%nat then Ok (zip_with f a b)
  else match a, b with
       | [x], _ => Ok (map (f x) b)
       | _, [y] => Ok (map (fun x => f x y) a)
       | _, _ => Raise ValueError
       end.

(** [np.mean] of a complex array (sum over count). *)
Definition mean (a : list C) : C := div_n (sum a) (length a).

(** [np.hanning(M)]: empty for [M < 1], [[1]] for [M = 1], otherwise
    [0.5 + 0.5*cos(pi*n/(M-1))] for [n = 1-M, 3-M, ..., M-1]. *)
Definition hanning (M : nat) : list R :=
  match M with
  | O => []
  | S O => [1]
  | _ => map (fun k => 0.5 + 0.5 * cos (PI * (1 - INR M + 2 * INR k) / (INR M - 1)))
             (seq 0 M)
  end.

(** [a.astype(dtype)]: a change of precision, which leaves an exact
    number as it is. *)
Definition astype {A} (a : A) : A := a.

(** [np.full((rows, cols), v)] *)
Definition full (rows cols : nat) (v : R) : list (list R) :=
  repeat (repeat v cols) rows.

(** Crop or zero-pad to length [n], as [np.fft.fft(x, n=n)] does with its
    input. *)
Definition resize (x : list C) (n : nat) : list C :=
  firstn n x ++ repeat zero (n - length x).

(** One output bin of the discrete Fourier transform of the [n] samples
    [x]: [sum_j x[j] * exp(-2*pi*i*j*k/n)]. *)
Definition dft_bin (x : list C) (n k : nat) : C :=
  sum (map (fun j => mul (nth j x zero)
                         (cis (- (2 * PI * INR j * INR k / INR n))))
           (seq 0 n)).

(** [np.fft.fft(x, n=n)]: raises [ValueError] for [n < 1]. *)
Definition fft (x : list C) (n : nat) : outcome (list C) :=
  if (n <? 1)%nat then Raise ValueError
  else Ok (map (dft_bin (resize x n) n) (seq 0 n)).

(** [np.fft.fftshift] on a one-dimensional array: a cyclic shift by
    [len // 2], so that the second half comes first. *)
Definition fftshift {A} (x : list A) : list A :=
  let n := length x in
  skipn (n - n / 2) x ++ firstn (n - n / 2) x.

(** The integer multipliers of [np.fft.fftfreq(n)]:
    [0, 1, ..., (n-1)//2, -(n//2), ..., -1]. *)
Definition fftfreq_index (n : nat) : list Z :=
  let N := (((Z.of_nat n - 1) / 2) + 1)%Z in
  map Z.of_nat (seq 0 (Z.to_nat N))
  ++ map (fun i => (Z.of_nat i - Z.of_nat (n / 2))%Z) (seq 0 (n / 2)).

(** [np.fft.fftfreq(n, d)]: [val = 1.0/(n*d)] raises for [n*d = 0]. *)
Definition fftfreq (n : nat) (d : R) : outcome (list R) :=
  if Req_dec_T (INR n * d) 0 then Raise ZeroDivisionError
  else let val := 1 / (INR n * d) in
       Ok (map (fun k => IZR k * val) (fftfreq_index n)).

(** [np.log10] *)
Definition log10 (x : R) : R := ln x / ln 10.

(** [np.clip(x, lo, hi)] is [minimum(maximum(x, lo), hi)]. *)
Definition clip (lo hi x : R) : R := Rmin (Rmax x lo) hi.

(** Sorting, for [np.percentile]. *)
Fixpoint insert (x : R) (l : list R) : list R :=
  match l with
  | [] => [x]
  | y :: l' => if Rle_dec x y then x :: l else y :: insert x l'
  end.

Definition sort (l : list R) : list R := fold_right insert [] l.

(** [np.percentile(a, q)] for an integer [q] in [0..100], default
    (linear) method: with the values sorted, the virtual index is
    [(len-1)*q/100]; the result interpolates linearly between the two
    neighbouring order statistics.  The code never calls it on an empty
    array ([fft] has already rejected size 0); 0 stands for numpy's
    [nan] there. *)
Definition percentile (a : list R) (q : nat) : R :=
  let s := sort a in
  let v := ((length a - 1) * q)%nat in
  let lo := (v / 100)%nat in
  let hi := Nat.min (lo + 1) (length a - 1) in
  let g := INR (v mod 100) / 100 in
  nth lo s 0 + (nth hi s 0 - nth lo s 0) * g.

End Np.
Import Np.

(* ================================================================== *)
(** * Python strings and number parsing *)

Module PyStr.

Local Open Scope char_scope.

(** White space, as [str.strip] removes it.  The ASCII part: tab to
    carriage return, the four separators U+001C to U+001F, and the
    space. *)
Definition is_space (c : ascii) : bool :=
  let n := nat_of_ascii c in
  ((9 <=? n) && (n <=? 13) || (28 <=? n) && (n <=? 32))%nat.

(** The white space characters of two bytes: U+0085 (C2 85) and U+00A0
    (C2 A0). *)
Definition is_space2 (a b : ascii) : bool :=
  let x := nat_of_ascii a in
  let y := nat_of_ascii b in
  ((x =? 194) && ((y =? 133) || (y =? 160)))%nat.

(** The white space characters of three bytes: U+1680 (E1 9A 80),
    U+2000 to U+200A (E2 80 80 to E2 80 8A), U+2028, U+2029 and U+202F
    (E2 80 A8, A9, AF), U+205F (E2 81 9F) and U+3000 (E3 80 80). *)
Definition is_space3 (a b c : ascii) : bool :=
  let x := nat_of_ascii a in
  let y := nat_of_ascii b in
  let z := nat_of_ascii c in
  ((x =? 225) && (y =? 154) && (z =? 128)
   || (x =? 226) && (y =? 128)
      && ((128 <=? z) && (z <=? 138) || (z =? 168) || (z =? 169) || (z =? 175))
   || (x =? 226) && (y =? 129) && (z =? 159)
   || (x =? 227) && (y =? 128) && (z =? 128))%nat.

(** Dropping white space from the front of a string of bytes.  With
    [fwd] the bytes are in reading order; without, the string is a
    reversed text and the bytes of a character come last byte first. *)
Fixpoint lstrip_bytes (fwd : bool) (s : string) : string :=
  match s with
  | EmptyString => EmptyString
  | String a s1 =>
      if is_space a then lstrip_bytes fwd s1
      else
        match s1 with
        | EmptyString => s
        | String b s2 =>
            if (if fwd then is_space2 a b else is_space2 b a)
            then lstrip_bytes fwd s2
            else
              match s2 with
              | EmptyString => s
              | String c s3 =>
                  if (if fwd then is_space3 a b c else is_space3 c b a)
                  then lstrip_bytes fwd s3
                  else s
              end
        end
  end.

Definition lstrip (s : string) : string := lstrip_bytes true s.

Fixpoint rev_append (s acc : string) : string :=
  match s with
  | EmptyString => acc
  | String c s' => rev_append s' (String c acc)
  end.

Definition rev (s : string) : string := rev_append s EmptyString.

Definition rstrip (s : string) : string := rev (lstrip_bytes false (rev s)).

(** [s.strip()] *)
Definition strip (s : string) : string := rstrip (lstrip s).

Definition lower_char (c : ascii) : ascii :=
  let n := nat_of_ascii c in
  if ((65 <=? n) && (n <=? 90))%nat then ascii_of_nat (n + 32) else c.

(** [s.lower()]: the letters A to Z go to a to z.  The bytes of the
    characters outside ASCII are left as they are: none of those
    characters has a lower-case form with a letter of "auto" in it, and
    [float] accepts no letter outside ASCII, so that neither the
    comparison with "auto" nor the outcome of [float] depends on them. *)
Fixpoint lower (s : string) : string :=
  match s with
  | EmptyString => EmptyString
  | String c s' => String (lower_char c) (lower s')
  end.

Definition digit (c : ascii) : option nat :=
  let n := nat_of_ascii c in
  if ((48 <=? n) && (n <=? 57))%nat then Some (n - 48)%nat else None.

Fixpoint digits (s : string) (acc : nat) : option nat :=
  match s with
  | EmptyString => Some acc
  | String c s' =>
      match digit c with
      | Some d => digits s' (10 * acc + d)
      | None => None
      end
  end.

(** [int(s)] on the texts the program passes to it: a non-empty run of
    decimal digits; anything else raises [ValueError]. *)
Definition int (s : string) : outcome nat :=
  match s with
  | EmptyString => Raise ValueError
  | _ => match digits s 0 with
         | Some n => Ok n
         | None => Raise ValueError
         end
  end.

End PyStr.

(* ================================================================== *)
(** * The objects the window owns *)

(** [sdr.gain] is the string "auto" or a number. *)
Inductive gain_t : Type :=
| GainAuto
| GainDb (g : R).

(** The receiver, as far as the program touches it: the three properties
    it assigns and reads back, and whether it has been closed.  An
    assignment to a property takes effect as written; the one device
    failure followed here is that of [read_samples]. *)
Record RtlSdr : Type := mkRtlSdr {
  sample_rate : R;
  center_freq : R;
  gain : gain_t;
  sdr_closed : bool
}.

(** [pg.ImageItem]: the array last handed to [setImage] and the rectangle
    [(x, y, width, height)] last handed to [setRect]. *)
Record ImageItem : Type := mkImageItem {
  image : option (list (list R));
  rect : option (R * R * R * R)
}.

(** [QtCore.QTimer]: running or not, and the interval in milliseconds. *)
Record QTimer : Type := mkQTimer {
  timer_active : bool;
  timer_interval : Z
}.

(** The entries of the FFT size combo box (line 79). *)
Inductive fft_item : Type := Fft1024 | Fft2048 | Fft4096 | Fft8192.

Definition fft_item_text (i : fft_item) : string :=
  match i with
  | Fft1024 => "1024"
  | Fft2048 => "2048"
  | Fft4096 => "4096"
  | Fft8192 => "8192"
  end%string.

(** The current values of the input widgets, as [apply_settings] reads
    them. *)
Record Widgets : Type := mkWidgets {
  freq_input : R;          (* QDoubleSpinBox, MHz *)
  sr_input : R;            (* QDoubleSpinBox, MS/s *)
  gain_input : string;     (* QLineEdit *)
  fft_input : fft_item;    (* QComboBox *)
  fps_input : Z            (* QSpinBox *)
}.

(** The ranges the spin boxes enforce (lines 60, 67, 84). *)
Definition widgets_in_range (ui : Widgets) : Prop :=
  1 <= freq_input ui <= 2000 /\
  0.25 <= sr_input ui <= 3.2 /\
  (10 <= fps_input ui <= 60)%Z.

(** The fields of [WaterfallApp] (lines 26-48, 110, 121, 125, 131). *)
Record WaterfallApp : Type := mkWaterfallApp {
  center_freq_hz : R;
  sample_rate_hz : R;
  gain_db : gain_t;
  nfft : nat;
  fps : Z;
  waterfall_rows : nat;
  dynamic_range_db : R;
  sdr : RtlSdr;
  window : list R;
  waterfall : list (list R);
  db_max_smooth : option R;
  freqs_mhz : list R;
  img : ImageItem;
  timer : QTimer;
  closing : bool
}.

(** Field assignments. *)
Definition set_nfft (v : nat) (a : WaterfallApp) : WaterfallApp :=
  mkWaterfallApp (center_freq_hz a) (sample_rate_hz a) (gain_db a) v (fps a)
    (waterfall_rows a) (dynamic_range_db a) (sdr a) (window a) (waterfall a)
    (db_max_smooth a) (freqs_mhz a) (img a) (timer a) (closing a).
Definition set_fps (v : Z) (a : WaterfallApp) : WaterfallApp :=
  mkWaterfallApp (center_freq_hz a) (sample_rate_hz a) (gain_db a) (nfft a) v
    (waterfall_rows a) (dynamic_range_db a) (sdr a) (window a) (waterfall a)
    (db_max_smooth a) (freqs_mhz a) (img a) (timer a) (closing a).
Definition set_sdr (v : RtlSdr) (a : WaterfallApp) : WaterfallApp :=
  mkWaterfallApp (center_freq_hz a) (sample_rate_hz a) (gain_db a) (nfft a) (fps a)
    (waterfall_rows a) (dynamic_range_db a) v (window a) (waterfall a)
    (db_max_smooth a) (freqs_mhz a) (img a) (timer a) (closing a).
Definition set_window (v : list R) (a : WaterfallApp) : WaterfallApp :=
  mkWaterfallApp (center_freq_hz a) (sample_rate_hz a) (gain_db a) (nfft a) (fps a)
    (waterfall_rows a) (dynamic_range_db a) (sdr a) v (waterfall a)
    (db_max_smooth a) (freqs_mhz a) (img a) (timer a) (closing a).
Definition set_waterfall (v : list (list R)) (a : WaterfallApp) : WaterfallApp :=
  mkWaterfallApp (center_freq_hz a) (sample_rate_hz a) (gain_db a) (nfft a) (fps a)
    (waterfall_rows a) (dynamic_range_db a) (sdr a) (window a) v
    (db_max_smooth a) (freqs_mhz a) (img a) (timer a) (closing a).
Definition set_db_max_smooth (v : option R) (a : WaterfallApp) : WaterfallApp :=
  mkWaterfallApp (center_freq_hz a) (sample_rate_hz a) (gain_db a) (nfft a) (fps a)
    (waterfall_rows a) (dynamic_range_db a) (sdr a) (window a) (waterfall a)
    v (freqs_mhz a) (img a) (timer a) (closing a).
Definition set_freqs_mhz (v : list R) (a : WaterfallApp) : WaterfallApp :=
  mkWaterfallApp (center_freq_hz a) (sample_rate_hz a) (gain_db a) (nfft a) (fps a)
    (waterfall_rows a) (dynamic_range_db a) (sdr a) (window a) (waterfall a)
    (db_max_smooth a) v (img a) (timer a) (closing a).
Definition set_img (v : ImageItem) (a : WaterfallApp) : WaterfallApp :=
  mkWaterfallApp (center_freq_hz a) (sample_rate_hz a) (gain_db a) (nfft a) (fps a)
    (waterfall_rows a) (dynamic_range_db a) (sdr a) (window a) (waterfall a)
    (db_max_smooth a) (freqs_mhz a) v (timer a) (closing a).
Definition set_timer (v : QTimer) (a : WaterfallApp) : WaterfallApp :=
  mkWaterfallApp (center_freq_hz a) (sample_rate_hz a) (gain_db a) (nfft a) (fps a)
    (waterfall_rows a) (dynamic_range_db a) (sdr a) (window a) (waterfall a)
    (db_max_smooth a) (freqs_mhz a) (img a) v (closing a).
Definition set_closing (v : bool) (a : WaterfallApp) : WaterfallApp :=
  mkWaterfallApp (center_freq_hz a) (sample_rate_hz a) (gain_db a) (nfft a) (fps a)
    (waterfall_rows a) (dynamic_range_db a) (sdr a) (window a) (waterfall a)
    (db_max_smooth a) (freqs_mhz a) (img a) (timer a) v.

Definition set_sample_rate (v : R) (d : RtlSdr) : RtlSdr :=
  mkRtlSdr v (center_freq d) (gain d) (sdr_closed d).
Definition set_center_freq (v : R) (d : RtlSdr) : RtlSdr :=
  mkRtlSdr (sample_rate d) v (gain d) (sdr_closed d).
Definition set_gain (v : gain_t) (d : RtlSdr) : RtlSdr :=
  mkRtlSdr (sample_rate d) (center_freq d) v (sdr_closed d).

(* ================================================================== *)
(** * Methods as state transformers that may raise *)

(** A method body: from the object before the call to the outcome and
    the object as the call leaves it.  A raised exception keeps every
    assignment made before it. *)
Definition M (A : Type) : Type := WaterfallApp -> outcome A * WaterfallApp.

Definition ret {A} (a : A) : M A := fun self => (Ok a, self).
Definition bind {A B} (m : M A) (k : A -> M B) : M B :=
  fun self => match m self with
              | (Ok a, self') => k a self'
              | (Raise e, self') => (Raise e, self')
              end.
Definition get : M WaterfallApp := fun self => (Ok self, self).
Definition modify (f : WaterfallApp -> WaterfallApp) : M unit :=
  fun self => (Ok tt, f self).
Definition lift {A} (o : outcome A) : M A := fun self => (o, self).
Definition raise {A} (e : exn) : M A := fun self => (Raise e, self).

Declare Scope method_scope.
Delimit Scope method_scope with method.
Notation "x <- m ;; k" := (bind m (fun x => k))
  (at level 61, m at next level, right associativity) : method_scope.
Notation "m ;; k" := (bind m (fun _ => k))
  (at level 61, right associativity) : method_scope.

(* ================================================================== *)
(** * The methods of [WaterfallApp] *)

(** What [self.sdr.read_samples(n)] gives back on one call: a block of
    samples, or an I/O failure of the device. *)
Inductive read_result : Type :=
| Samples (iq : list C)
| ReadFailed.

(** The user-visible events Qt delivers to the window, one at a time. *)
Inductive event : Type :=
| Tick (rd : read_result)     (* timer timeout -> update_once *)
| Apply (ui : Widgets)        (* Apply button -> apply_settings *)
| Close.                      (* window closed -> closeEvent *)

Section Methods.

(** Python's [float(s)]: the number a text denotes, [None] where
    [float] raises [ValueError]. *)
Variable py_float : string -> option R.

Local Open Scope method_scope.

(** [self.timer.start(int(1000.0 / self.fps))] (lines 123, 165). *)
Definition timer_start : M unit :=
  self <- get ;;
  if (fps self =? 0)%Z then raise ZeroDivisionError
  else modify (set_timer (mkQTimer true (Z.quot 1000 (fps self)))).

(** Lines 127-137. *)
Definition update_freq_axis : M unit :=
  self <- get ;;
  if Req_dec_T (sample_rate (sdr self)) 0 then raise ZeroDivisionError else
  f <- lift (fftfreq (nfft self) (1 / sample_rate (sdr self))) ;;
  let freqs := fftshift f in
  let freqs_mhz := map (fun x => (x + center_freq (sdr self)) / 1e6) freqs in
  modify (set_freqs_mhz freqs_mhz) ;;
  match freqs_mhz with
  | [] => raise IndexError
  | x_min :: _ =>
      let x_max := last freqs_mhz 0 in
      modify (fun a => set_img (mkImageItem (image (img a))
                (Some (x_min, 0, x_max - x_min, INR (waterfall_rows a)))) a)
  end.

(** Lines 144-153: the gain field. *)
Definition apply_gain (text : string) : M unit :=
  let gain_txt := PyStr.lower (PyStr.strip text) in
  if String.eqb gain_txt "auto" then
    modify (fun a => set_sdr (set_gain GainAuto (sdr a)) a)
  else
    match py_float gain_txt with
    | Some g => modify (fun a => set_sdr (set_gain (GainDb g) (sdr a)) a)
    | None => ret tt      (* except ValueError: pass *)
    end.

(** Lines 139-168. *)
Definition apply_settings (ui : Widgets) : M unit :=
  modify (fun a => set_sdr (set_center_freq (freq_input ui * 1e6) (sdr a)) a) ;;
  modify (fun a => set_sdr (set_sample_rate (sr_input ui * 1e6) (sdr a)) a) ;;
  apply_gain (gain_input ui) ;;
  new_nfft <- lift (PyStr.int (fft_item_text (fft_input ui))) ;;
  self <- get ;;
  (if negb (new_nfft =? nfft self)%nat then
     modify (set_nfft new_nfft) ;;
     modify (fun a => set_window (astype (hanning (nfft a))) a) ;;
     modify (fun a => set_waterfall (full (waterfall_rows a) (nfft a) (-120.0)) a) ;;
     modify (set_db_max_smooth None)
   else ret tt) ;;
  modify (set_fps (fps_input ui)) ;;
  timer_start ;;
  update_freq_axis.

(** Lines 177-186: from the block of samples to the power spectrum in
    dB.  [n] is [self.nfft] and [w] is [self.window]. *)
Definition power_spectrum (n : nat) (w : list R) (iq : list C)
  : outcome (list R) :=
  (let iq := map (fun z => sub z (mean iq)) iq in
   x <- broadcast2 scale iq w ;;
   X <- fft x n ;;
   let X := fftshift X in
   let mag := map abs X in
   Ok (map (fun m => 20.0 * log10 (m + 1e-12)) mag))%outcome.

(** Lines 191-195: the smoothed top of the scale. *)
Definition smooth (prev : option R) (new_db_max : R) : R :=
  match prev with
  | None => new_db_max
  | Some s => 0.9 * s + 0.1 * new_db_max
  end.

(** Line 203, [self.waterfall[:-1, :] = self.waterfall[1:, :]]: every
    row but the last takes the contents of the row below it. *)
Definition scroll_up (wf : list (list R)) : list (list R) :=
  match wf with
  | [] => []
  | _ :: below => below ++ [last wf []]
  end.

(** Line 204, [self.waterfall[-1, :] = row]: [IndexError] without rows;
    a row of the matrix's width is stored, a single value is broadcast
    along the row, any other length raises [ValueError]. *)
Definition set_last_row (wf : list (list R)) (row : list R)
  : outcome (list (list R)) :=
  match wf with
  | [] => Raise IndexError
  | _ =>
      let cols := length (last wf []) in
      if (length row =? cols)%nat then Ok (removelast wf ++ [row])
      else match row with
           | [v] => Ok (removelast wf ++ [repeat v cols])
           | _ => Raise ValueError
           end
  end.

(** Lines 170-207. *)
Definition update_once (rd : read_result) : M unit :=
  self <- get ;;
  if closing self then ret tt else
  iq <- match rd with
        | Samples iq => ret (astype iq)
        | ReadFailed => raise IOError
        end ;;
  power_db <- lift (power_spectrum (nfft self) (window self) iq) ;;
  let new_db_max := percentile power_db 99 in
  modify (fun a => set_db_max_smooth (Some (smooth (db_max_smooth a) new_db_max)) a) ;;
  self <- get ;;
  let db_max := match db_max_smooth self with Some m => m | None => 0 end in
  let db_min := db_max - dynamic_range_db self in
  let power_db := astype (map (clip db_min db_max) power_db) in
  modify (fun a => set_waterfall (scroll_up (waterfall a)) a) ;;
  self <- get ;;
  wf <- lift (set_last_row (waterfall self) power_db) ;;
  modify (set_waterfall wf) ;;
  modify (fun a => set_img (mkImageItem (Some (waterfall a)) (rect (img a))) a).

(** Lines 209-219. *)
Definition closeEvent : M unit :=
  modify (set_closing true) ;;
  modify (fun a => set_timer (mkQTimer false (timer_interval (timer a))) a) ;;
  modify (fun a => set_sdr (mkRtlSdr (sample_rate (sdr a)) (center_freq (sdr a))
                              (gain (sdr a)) true) a).

(** Lines 26-48 of [__init__]: the fields before the first method call. *)
Definition init_fields : WaterfallApp :=
  mkWaterfallApp 94.9e6 2.4e6 GainAuto 2048 15 300 60.0
    (mkRtlSdr 2.4e6 94.9e6 GainAuto false)
    (astype (hanning 2048))
    (full 300 2048 (-120.0))
    None
    []
    (mkImageItem None None)
    (mkQTimer false 0)
    false.

(** Lines 118-125 of [__init__]. *)
Definition init : M unit :=
  update_freq_axis ;;
  timer_start ;;
  modify (set_closing false).

Definition handle (ev : event) : M unit :=
  match ev with
  | Tick rd => update_once rd
  | Apply ui => apply_settings ui
  | Close => closeEvent
  end.

(** The objects the program can be in: the constructed window, and
    whatever a handler leaves behind (also when it raised). *)
Inductive reachable : WaterfallApp -> Prop :=
| reach_init : reachable (snd (init init_fields))
| reach_step : forall st ev, reachable st -> reachable (snd (handle ev st)).

(** Running a sequence of ticks, each on the object the previous one
    left. *)
Definition run_ticks (st : WaterfallApp) (blocks : list (list C)) : WaterfallApp :=
  fold_left (fun s iq => snd (update_once (Samples iq) s)) blocks st.

End Methods.

(* ================================================================== *)
(** * Notions used to state the properties *)

(** The shape invariant: the window has [nfft] coefficients and the
    waterfall is a [waterfall_rows] by [nfft] matrix. *)
Definition consistent (st : WaterfallApp) : Prop :=
  length (window st) = nfft st /\
  length (waterfall st) = waterfall_rows st /\
  Forall (fun row => length row = nfft st) (waterfall st).

(** The top of the scale a tick settles on for the spectrum [p] (lines
    189-197), the bottom (line 198) and the row it stores (line 200). *)
Definition tick_db_max (st : WaterfallApp) (p : list R) : R :=
  smooth (db_max_smooth st) (percentile p 99).

Definition tick_db_min (st : WaterfallApp) (p : list R) : R :=
  tick_db_max st p - dynamic_range_db st.

Definition tick_row (st : WaterfallApp) (p : list R) : list R :=
  map (clip (tick_db_min st p) (tick_db_max st p)) p.

(** The object a tick leaves when every step of it went through. *)
Definition after_tick (st : WaterfallApp) (p : list R) : WaterfallApp :=
  let wf := removelast (scroll_up (waterfall st)) ++ [tick_row st p] in
  set_img (mkImageItem (Some wf) (rect (img st)))
    (set_waterfall wf (set_db_max_smooth (Some (tick_db_max st p)) st)).

(** The rows stored by a run of ticks, oldest first. *)
Fixpoint pushed_rows (st : WaterfallApp) (blocks : list (list C))
  : list (list R) :=
  match blocks with
  | [] => []
  | iq :: rest =>
      match power_spectrum (nfft st) (window st) iq with
      | Ok p => tick_row st p
      | Raise _ => []
      end :: pushed_rows (snd (update_once (Samples iq) st)) rest
  end.

(** The number a combo box entry stands for. *)
Definition fft_item_size (i : fft_item) : nat :=
  match i with
  | Fft1024 => 1024
  | Fft2048 => 2048
  | Fft4096 => 4096
  | Fft8192 => 8192
  end%nat.

(** The gain the device has after lines 144-153, from the text of the
    gain field and the gain it had. *)
Definition new_gain (py_float : string -> option R) (text : string)
  (old : gain_t) : gain_t :=
  let gain_txt := PyStr.lower (PyStr.strip text) in
  if String.eqb gain_txt "auto" then GainAuto
  else match py_float gain_txt with
       | Some g => GainDb g
       | None => old
       end.

(** The window object after lines 141-164 of [apply_settings], before
    the timer is restarted and the axis recomputed. *)
Definition reconfigured (py_float : string -> option R) (ui : Widgets)
  (st : WaterfallApp) : WaterfallApp :=
  let d := mkRtlSdr (sr_input ui * 1e6) (freq_input ui * 1e6)
             (new_gain py_float (gain_input ui) (gain (sdr st)))
             (sdr_closed (sdr st)) in
  let n := fft_item_size (fft_input ui) in
  let st1 := set_sdr d st in
  let st2 := if (n =? nfft st)%nat then st1
             else set_db_max_smooth None
                    (set_waterfall (full (waterfall_rows st) n (-120.0))
                       (set_window (hanning n) (set_nfft n st1))) in
  set_fps (fps_input ui) st2.

(** A [float] that accepts no text at all, and one that reads "35". *)
Definition float_none : string -> option R := fun _ => None.

Definition float_35 : string -> option R :=
  fun s => if String.eqb s "35" then Some 35 else None.

(** Widget values for concrete runs. *)
Definition ui_bad_gain : Widgets :=
  mkWidgets 100.0 2.0 "loud" Fft4096 20.

Definition ui_same_size : Widgets :=
  mkWidgets 100.0 2.0 "35" Fft2048 20.

(** Two window objects with the same size, window and matrix are
    consistent together. *)
Definition same_shape (st st' : WaterfallApp) : Prop :=
  nfft st' = nfft st /\ window st' = window st /\
  waterfall st' = waterfall st /\ waterfall_rows st' = waterfall_rows st.

(** Widget values with the gain spelled " AUTO ". *)
Definition ui_auto : Widgets :=
  mkWidgets 100.0 2.0 " AUTO " Fft2048 20.

(** The values the constructor puts into the widgets (lines 62, 69,
    73, 80, 85): the defaults, in the widgets' units. *)
Definition initial_widgets : Widgets :=
  mkWidgets (94.9e6 / 1e6) (2.4e6 / 1e6) "auto" Fft2048 15.

(** ** Line 198 to 200 on IEEE 754 values

    [db_max] and [self.dynamic_range_db] are Python floats (binary64);
    [np.clip(power_db, db_min, db_max).astype(np.float32)] saturates each
    bin and rounds the result to single precision.  A value is a
    [spec_float] in the binary64 format; a single precision value is kept
    as the binary64 value equal to it. *)
Module Ieee.

Definition f64 : Type := spec_float.


(** binary64 subtraction, [db_max - self.dynamic_range_db] *)
Definition sub (x y : f64) : f64 := SFsub 53 1024 x y.

(** [np.maximum] and [np.minimum]; a NaN operand gives NaN *)
Definition maximum (x y : f64) : f64 :=
  match SFcompare x y with
  | None => S754_nan
  | Some Lt => y
  | Some _ => x
  end.

Definition minimum (x y : f64) : f64 :=
  match SFcompare x y with
  | None => S754_nan
  | Some Gt => y
  | Some _ => x
  end.

(** [np.clip(x, lo, hi)] *)
Definition clip (lo hi x : f64) : f64 := minimum (maximum x lo) hi.




End Ieee.


(** The text U+00A0 "AUTO" U+00A0, and widget values with it as the
    gain. *)
Definition nbsp_auto : string :=
  String (ascii_of_nat 194) (String (ascii_of_nat 160)
    ("AUTO" ++ String (ascii_of_nat 194) (String (ascii_of_nat 160) EmptyString))).

Definition ui_nbsp_auto : Widgets :=
  mkWidgets 100.0 2.0 nbsp_auto Fft2048 20.

(** A small window object for concrete runs: 4 bins, 2 rows. *)
Definition small_app : WaterfallApp :=
  mkWaterfallApp 94.9e6 2.4e6 GainAuto 4 15 2 60.0
    (mkRtlSdr 2.4e6 94.9e6 GainAuto false)
    (hanning 4)
    (full 2 4 (-120.0))
    None
    []
    (mkImageItem None None)
    (mkQTimer true 66)
    false.

(* ================================================================== *)
(** * Lists and shapes *)

Lemma map_const {A B} (f : A -> B) (c : B) (l : list A) :
  (forall x, In x l -> f x = c) -> map f l = repeat c (length l).
Proof.
  induction l as [|a l IH]; intros H; simpl; [reflexivity|].
  rewrite (H a (or_introl eq_refl)), IH; [reflexivity|].
  intros x Hx. apply H. now right.
Qed.

Lemma in_repeat {A} (c x : A) (n : nat) : In x (repeat c n) -> x = c.
Proof. intros H. exact (repeat_spec n c x H). Qed.

Lemma zip_with_length {A B D} (f : A -> B -> D) (a : list A) (b : list B) :
  length (zip_with f a b) = Nat.min (length a) (length b).
Proof.
  revert b. induction a as [|x a IH]; intros [|y b]; simpl; auto.
Qed.

Lemma zip_with_repeat_l {A B D} (f : A -> B -> D) (c : A) (d : D) (b : list B) :
  (forall y, f c y = d) ->
  zip_with f (repeat c (length b)) b = repeat d (length b).
Proof.
  intros H. induction b as [|y b IH]; simpl; [reflexivity|].
  now rewrite H, IH.
Qed.

Lemma fftshift_length {A} (x : list A) : length (fftshift x) = length x.
Proof.
  unfold fftshift. rewrite length_app, length_skipn, length_firstn.
  pose proof (Nat.Div0.div_le_upper_bound (length x) 2 (length x)).
  lia.
Qed.

Lemma all_eq_repeat {A} (c : A) (l : list A) :
  (forall x, In x l -> x = c) -> l = repeat c (length l).
Proof.
  intros H. rewrite <- (map_id l) at 1. now apply map_const.
Qed.

Lemma fftshift_In {A} (x : A) (l : list A) : In x (fftshift l) -> In x l.
Proof.
  unfold fftshift. intros H.
  rewrite <- (firstn_skipn (length l - length l / 2) l).
  apply in_or_app. apply in_app_or in H. tauto.
Qed.

Lemma fftshift_repeat {A} (c : A) (n : nat) : fftshift (repeat c n) = repeat c n.
Proof.
  rewrite (all_eq_repeat c (fftshift (repeat c n))).
  - now rewrite fftshift_length, repeat_length.
  - intros x Hx. apply fftshift_In in Hx. now apply in_repeat in Hx.
Qed.

Lemma hanning_length (n : nat) : length (hanning n) = n.
Proof.
  destruct n as [|[|n]]; simpl; try reflexivity.
  now rewrite length_map, length_seq.
Qed.

Lemma full_shape (rows cols : nat) (v : R) :
  length (full rows cols v) = rows /\
  Forall (fun row => length row = cols) (full rows cols v).
Proof.
  unfold full. split; [apply repeat_length|].
  apply Forall_forall. intros row H.
  apply in_repeat in H. subst. apply repeat_length.
Qed.

(* ================================================================== *)
(** * The spectral transform (lines 177-186) *)

Lemma broadcast2_same {A B D} (f : A -> B -> D) a b :
  length a = length b -> broadcast2 f a b = Ok (zip_with f a b).
Proof. intros H. unfold broadcast2. now rewrite H, Nat.eqb_refl. Qed.

Lemma broadcast2_mismatch {A B D} (f : A -> B -> D) a b :
  length a <> length b -> length a <> 1%nat -> length b <> 1%nat ->
  broadcast2 f a b = Raise ValueError.
Proof.
  intros Hne Ha Hb. unfold broadcast2.
  apply Nat.eqb_neq in Hne. rewrite Hne.
  destruct a as [|x [|x' a]]; destruct b as [|y [|y' b]];
    simpl in *; congruence.
Qed.

Lemma broadcast2_one_l {A B D} (f : A -> B -> D) x b :
  broadcast2 f [x] b = Ok (map (f x) b).
Proof.
  unfold broadcast2. destruct (Nat.eqb_spec (length [x]) (length b)) as [E|E].
  - destruct b as [|y [|y' b]]; simpl in E; try discriminate. reflexivity.
  - reflexivity.
Qed.

Lemma fft_ok (x : list C) (n : nat) :
  (0 < n)%nat -> fft x n = Ok (map (dft_bin (resize x n) n) (seq 0 n)).
Proof.
  intros H. unfold fft. destruct (Nat.ltb_spec n 1); [lia|reflexivity].
Qed.

Lemma power_spectrum_length n w iq p :
  power_spectrum n w iq = Ok p -> length p = n.
Proof.
  unfold power_spectrum, obind.
  destruct (broadcast2 _ _ _) as [x|e]; [|discriminate].
  unfold fft. destruct (n <? 1)%nat; [discriminate|].
  intros H. injection H as <-.
  now rewrite !length_map, fftshift_length, length_map, length_seq.
Qed.

Lemma power_spectrum_total n w iq :
  length w = n -> length iq = n -> (0 < n)%nat ->
  exists p, power_spectrum n w iq = Ok p /\ length p = n.
Proof.
  intros Hw Hiq Hn. unfold power_spectrum, obind.
  rewrite broadcast2_same by (rewrite length_map; congruence).
  rewrite fft_ok by assumption.
  eexists. split; [reflexivity|].
  now rewrite !length_map, fftshift_length, length_map, length_seq.
Qed.

Lemma power_spectrum_mismatch n w iq :
  length w = n -> length iq <> n -> length iq <> 1%nat -> n <> 1%nat ->
  power_spectrum n w iq = Raise ValueError.
Proof.
  intros Hw Hne H1 Hn1. unfold power_spectrum, obind.
  rewrite broadcast2_mismatch; [reflexivity| | |];
    rewrite ?length_map; congruence.
Qed.

(** Zeros stay zeros through every stage. *)
Lemma sum_zeros (n : nat) : sum (repeat zero n) = zero.
Proof.
  induction n as [|n IH]; simpl; [reflexivity|].
  rewrite IH. unfold add, zero. simpl. f_equal; lra.
Qed.

Lemma mean_zeros (n : nat) : mean (repeat zero n) = zero.
Proof.
  unfold mean. rewrite sum_zeros. unfold div_n, zero. simpl.
  f_equal; unfold Rdiv; apply Rmult_0_l.
Qed.

Lemma sub_zero_zero : sub zero zero = zero.
Proof. unfold sub, zero. simpl. f_equal; lra. Qed.

Lemma scale_zero (w : R) : scale zero w = zero.
Proof. unfold scale, zero. simpl. f_equal; lra. Qed.

Lemma mul_zero_l (c : C) : mul zero c = zero.
Proof. unfold mul, zero. simpl. f_equal; lra. Qed.

Lemma abs_zero : abs zero = 0.
Proof.
  unfold abs, zero. simpl.
  replace (0 * 0 + 0 * 0) with 0 by lra. apply sqrt_0.
Qed.

Lemma nth_zeros (j n : nat) : nth j (repeat zero n) zero = zero.
Proof.
  destruct (Nat.lt_ge_cases j n) as [H|H].
  - apply nth_repeat_lt. exact H.
  - apply nth_overflow. now rewrite repeat_length.
Qed.

Lemma resize_zeros (n : nat) : resize (repeat zero n) n = repeat zero n.
Proof.
  unfold resize. rewrite repeat_length, Nat.sub_diag, app_nil_r.
  rewrite firstn_all2; [reflexivity|]. now rewrite repeat_length.
Qed.

Lemma dft_bin_zeros (n k : nat) : dft_bin (repeat zero n) n k = zero.
Proof.
  unfold dft_bin.
  rewrite (map_const _ zero).
  - apply sum_zeros.
  - intros j _. rewrite nth_zeros. apply mul_zero_l.
Qed.

(** A block that is zero after the mean is taken off and the window
    applied gives the floor value in every bin. *)
Lemma power_spectrum_of_zeros_windowed (n : nat) :
  (0 < n)%nat ->
  (x <- Ok (repeat zero n) ;;
   X <- fft x n ;;
   let X := fftshift X in
   let mag := map abs X in
   Ok (map (fun m => 20.0 * log10 (m + 1e-12)) mag))%outcome
  = Ok (repeat (20 * log10 1e-12) n).
Proof.
  intros Hn. unfold obind. rewrite fft_ok by assumption.
  rewrite resize_zeros.
  assert (HX : map (dft_bin (repeat zero n) n) (seq 0 n) = repeat zero n).
  { rewrite (map_const _ zero) by (intros; apply dft_bin_zeros).
    now rewrite length_seq. }
  rewrite HX, fftshift_repeat.
  assert (Hmag : map abs (repeat zero n) = repeat 0 n).
  { rewrite (map_const _ 0).
    - now rewrite repeat_length.
    - intros z Hz. apply in_repeat in Hz. subst. apply abs_zero. }
  rewrite Hmag. f_equal.
  rewrite (map_const _ (20 * log10 1e-12)).
  - now rewrite repeat_length.
  - intros m Hm. apply in_repeat in Hm. subst.
    replace (0 + 1e-12) with 1e-12 by lra.
    replace 20.0 with 20 by lra. reflexivity.
Qed.

(** The floor value in numbers: [20*log10(1e-12)] is -240 dB. *)
Lemma floor_value : 20 * log10 1e-12 = -240.
Proof.
  unfold log10.
  assert (H10 : 0 < ln 10).
  { rewrite <- ln_1. apply ln_increasing; lra. }
  replace 1e-12 with (/ 10 ^ 12) by lra.
  rewrite ln_Rinv by (apply pow_lt; lra).
  rewrite ln_pow by lra.
  simpl INR. field. lra.
Qed.

(** C6.  For every FFT size [n >= 1] and every window of [n]
    coefficients, the spectral transform of the all-zero block of [n]
    samples succeeds and gives [n] bins, each equal to
    [20*log10(epsilon)] with [epsilon = 1e-12] (that is, -240 dB). *)
Theorem zero_block_floor (n : nat) (w : list R) :
  (0 < n)%nat -> length w = n ->
  power_spectrum n w (repeat zero n) = Ok (repeat (20 * log10 1e-12) n) /\
  length (repeat (20 * log10 1e-12) n) = n /\
  20 * log10 1e-12 = -240.
Proof.
  intros Hn Hw. split; [|split; [apply repeat_length|apply floor_value]].
  unfold power_spectrum.
  assert (Hiq : map (fun z => sub z (mean (repeat zero n))) (repeat zero n)
                = repeat zero n).
  { rewrite (map_const _ zero).
    - now rewrite repeat_length.
    - intros z Hz. apply in_repeat in Hz. subst.
      rewrite mean_zeros. apply sub_zero_zero. }
  rewrite Hiq.
  rewrite broadcast2_same by (rewrite repeat_length; congruence).
  subst n. rewrite (zip_with_repeat_l scale zero zero) by apply scale_zero.
  now apply power_spectrum_of_zeros_windowed.
Qed.

Lemma zero_block_floor_witness :
  power_spectrum 4 (hanning 4) (repeat zero 4) = Ok (repeat (20 * log10 1e-12) 4) /\
  length (repeat (20 * log10 1e-12) 4) = 4%nat /\
  20 * log10 1e-12 = -240.
Proof.
  apply (zero_block_floor 4 (hanning 4)); [lia|reflexivity].
Defined.

(* ================================================================== *)
(** * One tick ([update_once]) *)

(** Unfolding the method combinators and the field assignments. *)
Ltac unfold_method :=
  cbv beta iota delta [bind get ret lift modify raise astype];
  cbn [center_freq_hz sample_rate_hz gain_db nfft fps waterfall_rows
       dynamic_range_db sdr window waterfall db_max_smooth freqs_mhz img
       timer closing
       set_nfft set_fps set_sdr set_window set_waterfall set_db_max_smooth
       set_freqs_mhz set_img set_timer set_closing
       sample_rate center_freq gain sdr_closed
       set_sample_rate set_center_freq set_gain
       image rect timer_active timer_interval fst snd].

Lemma update_once_closing (rd : read_result) (st : WaterfallApp) :
  closing st = true -> update_once rd st = (Ok tt, st).
Proof.
  intros H. unfold update_once. unfold_method. now rewrite H.
Qed.

Lemma update_once_spectrum_raises (iq : list C) (st : WaterfallApp) (e : exn) :
  closing st = false ->
  power_spectrum (nfft st) (window st) iq = Raise e ->
  update_once (Samples iq) st = (Raise e, st).
Proof.
  intros Hc Hp. unfold update_once. unfold_method. now rewrite Hc, Hp.
Qed.

Lemma scroll_up_removelast (wf : list (list R)) :
  removelast (scroll_up wf) = tl wf.
Proof.
  destruct wf as [|r wf]; [reflexivity|].
  unfold scroll_up. cbn [tl]. apply removelast_last.
Qed.

Lemma scroll_up_last (wf : list (list R)) :
  last (scroll_up wf) [] = last wf [].
Proof.
  destruct wf as [|r wf]; [reflexivity|].
  unfold scroll_up. apply last_last.
Qed.

Lemma scroll_up_length (wf : list (list R)) :
  length (scroll_up wf) = length wf.
Proof.
  destruct wf as [|r wf]; [reflexivity|].
  unfold scroll_up. rewrite length_app. simpl. lia.
Qed.

Lemma last_in {A} (l : list A) (d : A) : l <> [] -> In (last l d) l.
Proof.
  intros H. rewrite (app_removelast_last d H) at 2.
  apply in_or_app. right. now left.
Qed.

Lemma set_last_row_ok (wf : list (list R)) (row : list R) :
  wf <> [] -> length row = length (last wf []) ->
  set_last_row wf row = Ok (removelast wf ++ [row]).
Proof.
  intros Hne Hlen. unfold set_last_row.
  destruct wf as [|r wf]; [congruence|].
  now rewrite Hlen, Nat.eqb_refl.
Qed.

Lemma tick_row_length (st : WaterfallApp) (p : list R) :
  length (tick_row st p) = length p.
Proof. unfold tick_row. apply length_map. Qed.

(** The tick on a consistent, open window with at least one row, given
    a block whose spectrum is [p]: it completes and leaves [after_tick]. *)
Lemma update_once_ok (iq : list C) (st : WaterfallApp) (p : list R) :
  consistent st -> closing st = false ->
  (0 < waterfall_rows st)%nat ->
  power_spectrum (nfft st) (window st) iq = Ok p ->
  update_once (Samples iq) st = (Ok tt, after_tick st p).
Proof.
  intros (Hw & Hrows & Hcols) Hc HR Hp.
  pose proof (power_spectrum_length _ _ _ _ Hp) as Hlen.
  assert (Hne : waterfall st <> []).
  { intros E. rewrite E in Hrows. simpl in Hrows. lia. }
  assert (Hlast : length (last (waterfall st) []) = nfft st).
  { rewrite Forall_forall in Hcols. apply Hcols. now apply last_in. }
  unfold update_once. unfold_method. rewrite Hc, Hp. unfold_method.
  fold (tick_db_max st p). fold (tick_db_min st p). fold (tick_row st p).
  rewrite set_last_row_ok.
  - unfold_method. reflexivity.
  - intros E. apply (f_equal (@length _)) in E.
    rewrite scroll_up_length in E. simpl in E. lia.
  - rewrite scroll_up_last, tick_row_length. congruence.
Qed.

Lemma after_tick_waterfall (st : WaterfallApp) (p : list R) :
  waterfall (after_tick st p) = tl (waterfall st) ++ [tick_row st p].
Proof.
  unfold after_tick. unfold_method. now rewrite scroll_up_removelast.
Qed.

Lemma after_tick_consistent (st : WaterfallApp) (p : list R) :
  consistent st -> (0 < waterfall_rows st)%nat -> length p = nfft st ->
  consistent (after_tick st p).
Proof.
  intros (Hw & Hrows & Hcols) HR Hp. unfold consistent.
  rewrite after_tick_waterfall. unfold after_tick. unfold_method.
  split; [exact Hw|]. split.
  - rewrite length_app. simpl.
    destruct (waterfall st) as [|r wf]; simpl in *; lia.
  - apply Forall_app. split.
    + destruct (waterfall st) as [|r wf]; simpl; [constructor|].
      now inversion Hcols.
    + constructor; [|constructor]. now rewrite tick_row_length.
Qed.

Lemma small_app_consistent : consistent small_app.
Proof.
  unfold consistent, small_app. unfold_method.
  split; [reflexivity|]. split; [reflexivity|].
  unfold full. simpl. repeat constructor.
Qed.

(** A one-sample block is stretched along the window by broadcasting:
    after the mean is taken off it is a single zero. *)
Lemma power_spectrum_single (n : nat) (w : list R) (z : C) :
  (0 < n)%nat -> length w = n ->
  power_spectrum n w [z] = Ok (repeat (20 * log10 1e-12) n).
Proof.
  intros Hn Hw. unfold power_spectrum.
  assert (Hz : sub z (mean [z]) = zero).
  { unfold sub, mean, div_n, sum, add, zero. simpl.
    destruct z as [a b]. simpl. f_equal; field. }
  cbn [map]. rewrite Hz, broadcast2_one_l.
  rewrite (map_const _ zero) by (intros; apply scale_zero).
  rewrite Hw. now apply power_spectrum_of_zeros_windowed.
Qed.

(** C1, as the code has it.  A block whose length differs from [nfft]
    and is not 1 (with [nfft] itself not 1) cannot be multiplied by the
    window: the tick raises [ValueError] there, and nothing of the window
    object has changed. *)
Theorem block_length_mismatch_rejected (st : WaterfallApp) (iq : list C) :
  closing st = false ->
  length (window st) = nfft st ->
  length iq <> nfft st ->
  length iq <> 1%nat ->
  nfft st <> 1%nat ->
  update_once (Samples iq) st = (Raise ValueError, st).
Proof.
  intros Hc Hw Hne H1 Hn1.
  apply update_once_spectrum_raises; [assumption|].
  now apply power_spectrum_mismatch.
Qed.

Lemma block_length_mismatch_rejected_witness :
  update_once (Samples [zero; zero]) small_app = (Raise ValueError, small_app).
Proof.
  apply (block_length_mismatch_rejected small_app [zero; zero]);
    try reflexivity; simpl; lia.
Defined.

(** C8.  A tick whose read of the device fails raises the device's
    error and leaves the whole window object, the waterfall and the
    smoothed level in particular, exactly as it was. *)
Theorem read_failure_no_mutation (st : WaterfallApp) :
  closing st = false ->
  update_once ReadFailed st = (Raise IOError, st) /\
  waterfall (snd (update_once ReadFailed st)) = waterfall st /\
  db_max_smooth (snd (update_once ReadFailed st)) = db_max_smooth st.
Proof.
  intros Hc.
  assert (H : update_once ReadFailed st = (Raise IOError, st)).
  { unfold update_once. unfold_method. now rewrite Hc. }
  rewrite H. auto.
Qed.

Lemma read_failure_no_mutation_witness :
  update_once ReadFailed small_app = (Raise IOError, small_app) /\
  waterfall (snd (update_once ReadFailed small_app)) = waterfall small_app /\
  db_max_smooth (snd (update_once ReadFailed small_app)) = db_max_smooth small_app.
Proof.
  apply (read_failure_no_mutation small_app). reflexivity.
Defined.

(* ================================================================== *)
(** * Level and clamp *)

Lemma clip_bounds (lo hi x : R) : lo <= hi -> lo <= clip lo hi x <= hi.
Proof.
  intros H. unfold clip, Rmin, Rmax.
  destruct (Rle_dec x lo); destruct (Rle_dec _ hi); lra.
Qed.

Lemma clip_saturates (lo hi x : R) :
  lo <= hi ->
  (x < lo -> clip lo hi x = lo) /\
  (lo <= x <= hi -> clip lo hi x = x) /\
  (hi < x -> clip lo hi x = hi).
Proof.
  intros H. unfold clip, Rmin, Rmax.
  destruct (Rle_dec x lo); destruct (Rle_dec _ hi); repeat split; intros; lra.
Qed.

Lemma last_app_single {A} (l : list A) (a d : A) : last (l ++ [a]) d = a.
Proof. apply last_last. Qed.









(** [np.percentile] rests on sorting: [sort] returns the same values in
    ascending order. *)
Lemma insert_perm (x : R) (l : list R) : Permutation (x :: l) (insert x l).
Proof.
  induction l as [|y l IH]; simpl; [apply Permutation_refl|].
  destruct (Rle_dec x y); [apply Permutation_refl|].
  eapply perm_trans; [apply perm_swap|].
  now apply perm_skip.
Qed.

Lemma sort_perm (l : list R) : Permutation l (sort l).
Proof.
  induction l as [|x l IH]; simpl; [constructor|].
  eapply perm_trans; [|apply insert_perm].
  now apply perm_skip.
Qed.

Lemma insert_sorted (x : R) (l : list R) :
  Sorted Rle l -> Sorted Rle (insert x l).
Proof.
  induction l as [|y l IH]; intros H; simpl.
  - repeat constructor.
  - destruct (Rle_dec x y) as [Hxy|Hxy].
    + constructor; [assumption|]. now constructor.
    + inversion H as [|? ? Hs Hhd]; subst.
      constructor; [now apply IH|].
      destruct l as [|z l]; simpl.
      * constructor. lra.
      * destruct (Rle_dec x z); constructor; try lra.
        now inversion Hhd.
Qed.

Lemma sort_sorted (l : list R) : Sorted Rle (sort l).
Proof.
  induction l as [|x l IH]; simpl; [constructor|now apply insert_sorted].
Qed.

Example percentile_median : percentile [30; 10; 20] 50 = 20.
Proof.
  unfold percentile, sort. simpl.
  repeat (destruct (Rle_dec _ _); try lra; simpl); lra.
Qed.

Example percentile_99_of_two : percentile [100; 0] 99 = 99.
Proof.
  unfold percentile, sort. simpl.
  repeat (destruct (Rle_dec _ _); try lra; simpl); lra.
Qed.

(** C5.  On a consistent, open window the tick for a block of [nfft]
    samples completes.  With [candidate] the 99th percentile of the
    spectrum, the smoothed ceiling it leaves is [candidate] itself when no
    level was kept before, and [0.9 * previous + 0.1 * candidate]
    otherwise; the floor used for the stored row is that ceiling minus
    [dynamic_range_db]. *)
Theorem level_update (st : WaterfallApp) (iq : list C) :
  consistent st -> closing st = false ->
  (0 < nfft st)%nat -> (0 < waterfall_rows st)%nat ->
  length iq = nfft st ->
  exists p st',
    power_spectrum (nfft st) (window st) iq = Ok p /\
    update_once (Samples iq) st = (Ok tt, st') /\
    let candidate := percentile p 99 in
    let ceiling := match db_max_smooth st with
                   | None => candidate
                   | Some previous => 0.9 * previous + 0.1 * candidate
                   end in
    let floor := ceiling - dynamic_range_db st in
    db_max_smooth st' = Some ceiling /\
    last (waterfall st') [] = map (clip floor ceiling) p.
Proof.
  intros Hcons Hc Hn HR Hiq.
  destruct Hcons as (Hw & Hrest).
  destruct (power_spectrum_total (nfft st) (window st) iq Hw Hiq Hn)
    as (p & Hp & Hlen).
  exists p, (after_tick st p).
  split; [exact Hp|].
  split; [apply update_once_ok; unfold consistent; auto|].
  cbv zeta. split.
  - unfold after_tick. unfold_method. unfold tick_db_max, smooth.
    now destruct (db_max_smooth st).
  - rewrite after_tick_waterfall, last_app_single.
    unfold tick_row, tick_db_min, tick_db_max, smooth.
    now destruct (db_max_smooth st).
Qed.

Lemma level_update_witness :
  exists p st',
    power_spectrum (nfft small_app) (window small_app) (repeat zero 4) = Ok p /\
    update_once (Samples (repeat zero 4)) small_app = (Ok tt, st') /\
    let candidate := percentile p 99 in
    let ceiling := match db_max_smooth small_app with
                   | None => candidate
                   | Some previous => 0.9 * previous + 0.1 * candidate
                   end in
    let floor := ceiling - dynamic_range_db small_app in
    db_max_smooth st' = Some ceiling /\
    last (waterfall st') [] = map (clip floor ceiling) p.
Proof.
  apply (level_update small_app (repeat zero 4)).
  - apply small_app_consistent.
  - reflexivity.
  - simpl; lia.
  - simpl; lia.
  - reflexivity.
Defined.

(* ================================================================== *)
(** * Scrolling *)

(** What a tick keeps of the window object. *)
Lemma after_tick_frame (st : WaterfallApp) (p : list R) :
  nfft (after_tick st p) = nfft st /\
  window (after_tick st p) = window st /\
  waterfall_rows (after_tick st p) = waterfall_rows st /\
  closing (after_tick st p) = closing st /\
  dynamic_range_db (after_tick st p) = dynamic_range_db st.
Proof. unfold after_tick. unfold_method. auto. Qed.

(** After any number of good ticks the matrix is the old matrix followed
    by the stored rows, with as many rows dropped from the front as there
    were ticks. *)
Lemma run_ticks_waterfall (blocks : list (list C)) :
  forall st,
    consistent st -> closing st = false ->
    (0 < nfft st)%nat -> (0 < waterfall_rows st)%nat ->
    Forall (fun iq => length iq = nfft st) blocks ->
    waterfall (run_ticks st blocks)
    = skipn (length blocks) (waterfall st ++ pushed_rows st blocks).
Proof.
  induction blocks as [|iq rest IH]; intros st Hcons Hc Hn HR Hall.
  - simpl. now rewrite app_nil_r.
  - inversion Hall as [|? ? Hiq Hrest]; subst.
    destruct (power_spectrum_total (nfft st) (window st) iq
                (proj1 Hcons) Hiq Hn) as (p & Hp & Hlen).
    pose proof (update_once_ok iq st p Hcons Hc HR Hp) as Hstep.
    destruct (after_tick_frame st p) as (En & Ew & Er & Ec & _).
    unfold run_ticks. cbn [fold_left pushed_rows].
    rewrite Hstep, Hp. cbn [snd].
    fold (run_ticks (after_tick st p) rest).
    rewrite IH.
    + rewrite after_tick_waterfall.
      destruct Hcons as (_ & Hrows & _).
      destruct (waterfall st) as [|r wf]; [simpl in Hrows; lia|].
      cbn [tl length skipn app]. now rewrite <- app_assoc.
    + now apply after_tick_consistent.
    + congruence.
    + lia.
    + lia.
    + now rewrite En.
Qed.

(** C4.  On a consistent, open window with [R >= 1] rows, after [R+1]
    ticks on blocks of [nfft] samples the matrix consists of exactly the
    rows stored by ticks 2 to [R+1], in order: row 0 is the clamped
    spectrum of tick 2, row [R-1] the clamped spectrum of tick [R+1], and
    the row stored by tick 1 is gone (it is in the matrix only if a later
    tick stored an equal row). *)
Theorem scrolling_correctness (st : WaterfallApp) (blocks : list (list C)) :
  consistent st -> closing st = false ->
  (0 < nfft st)%nat -> (0 < waterfall_rows st)%nat ->
  length blocks = S (waterfall_rows st) ->
  Forall (fun iq => length iq = nfft st) blocks ->
  let rows := pushed_rows st blocks in
  let wf := waterfall (run_ticks st blocks) in
  wf = tl rows /\
  length wf = waterfall_rows st /\
  nth 0 wf [] = nth 1 rows [] /\
  nth (waterfall_rows st - 1) wf [] = nth (waterfall_rows st) rows [] /\
  (~ In (nth 0 rows []) (tl rows) -> ~ In (nth 0 rows []) wf).
Proof.
  intros Hcons Hc Hn HR Hlen Hall. cbv zeta.
  assert (Hrows : length (pushed_rows st blocks) = length blocks).
  { clear. revert st. induction blocks as [|iq rest IH]; intros st; simpl;
      [reflexivity|now rewrite IH]. }
  assert (Hwf : waterfall (run_ticks st blocks) = tl (pushed_rows st blocks)).
  { rewrite run_ticks_waterfall by assumption.
    destruct Hcons as (_ & HRlen & _).
    rewrite skipn_app, Hlen, HRlen.
    rewrite skipn_all2 by lia.
    replace (S (waterfall_rows st) - waterfall_rows st)%nat with 1%nat by lia.
    reflexivity. }
  rewrite Hwf.
  destruct (pushed_rows st blocks) as [|r1 rows] eqn:E;
    [simpl in Hrows; lia|].
  cbn [tl nth]. simpl in Hrows.
  split; [reflexivity|]. split; [lia|]. split; [reflexivity|].
  split; [|auto].
  destruct (waterfall_rows st) as [|k]; [lia|].
  now replace (S k - 1)%nat with k by lia.
Qed.

Lemma scrolling_correctness_witness :
  let st := small_app in
  let blocks := [repeat zero 4; repeat (1, 0) 4; repeat (0, 1) 4] in
  let rows := pushed_rows st blocks in
  let wf := waterfall (run_ticks st blocks) in
  wf = tl rows /\
  length wf = waterfall_rows st /\
  nth 0 wf [] = nth 1 rows [] /\
  nth (waterfall_rows st - 1) wf [] = nth (waterfall_rows st) rows [] /\
  (~ In (nth 0 rows []) (tl rows) -> ~ In (nth 0 rows []) wf).
Proof.
  apply (scrolling_correctness small_app
           [repeat zero 4; repeat (1, 0) 4; repeat (0, 1) 4]).
  - apply small_app_consistent.
  - reflexivity.
  - simpl; lia.
  - simpl; lia.
  - reflexivity.
  - repeat constructor.
Defined.

(* ================================================================== *)
(** * The frequency axis ([update_freq_axis]) *)

Lemma half_nat_Z (n : nat) : (n / 2)%nat = Z.to_nat (Z.of_nat n / 2).
Proof.
  change 2%Z with (Z.of_nat 2). now rewrite <- Nat2Z.inj_div, Nat2Z.id.
Qed.

Lemma seq_offset (k start len : nat) :
  seq (k + start) len = map (fun i => (k + i)%nat) (seq start len).
Proof.
  revert start. induction len as [|len IH]; intros start; simpl; [reflexivity|].
  f_equal. rewrite <- IH. f_equal. lia.
Qed.

Lemma fftfreq_index_length (n : nat) : length (fftfreq_index n) = n.
Proof.
  unfold fftfreq_index.
  rewrite length_app, !length_map, !length_seq.
  rewrite half_nat_Z. Z.div_mod_to_equations. lia.
Qed.

(** For an even size the shifted multipliers run from [-n/2] to
    [n/2 - 1]. *)
Lemma fftshift_index_even (m : nat) :
  fftshift (fftfreq_index (2 * m))
  = map (fun i => (Z.of_nat i - Z.of_nat m)%Z) (seq 0 (2 * m)).
Proof.
  unfold fftshift. rewrite fftfreq_index_length.
  unfold fftfreq_index.
  assert (Hd : (2 * m / 2 = m)%nat).
  { rewrite half_nat_Z. Z.div_mod_to_equations. lia. }
  assert (HN : Z.to_nat ((Z.of_nat (2 * m) - 1) / 2 + 1) = m).
  { Z.div_mod_to_equations. lia. }
  rewrite HN, Hd.
  replace (2 * m - m)%nat with m by lia.
  set (l1 := map Z.of_nat (seq 0 m)).
  set (l2 := map (fun i => (Z.of_nat i - Z.of_nat m)%Z) (seq 0 m)).
  assert (H1 : length l1 = m) by (unfold l1; now rewrite length_map, length_seq).
  rewrite skipn_app, firstn_app, H1, Nat.sub_diag.
  rewrite skipn_all2 by lia. rewrite firstn_all2 by lia.
  cbn [skipn firstn app]. rewrite app_nil_r.
  replace (2 * m)%nat with (m + m)%nat by lia.
  rewrite seq_app, map_app. f_equal.
  unfold l1. cbn [Nat.add].
  rewrite <- (Nat.add_0_r m) at 2. rewrite seq_offset, map_map.
  apply map_ext. intros i. lia.
Qed.

Lemma record_eta (st : WaterfallApp) :
  set_img (mkImageItem (image (img st)) (rect (img st)))
    (set_freqs_mhz (freqs_mhz st) st) = st.
Proof. destruct st as [? ? ? ? ? ? ? ? ? ? ? ? [? ?] ? ?]. reflexivity. Qed.

(** The axis on a window with a positive size and a non-zero sample
    rate: the list of bin frequencies in MHz and the image rectangle. *)
Lemma update_freq_axis_ok (st : WaterfallApp) :
  sample_rate (sdr st) <> 0 -> (0 < nfft st)%nat ->
  let val := 1 / (INR (nfft st) * (1 / sample_rate (sdr st))) in
  let f := map (fun x => (x + center_freq (sdr st)) / 1e6)
             (fftshift (map (fun k => IZR k * val) (fftfreq_index (nfft st)))) in
  update_freq_axis st
  = (Ok tt,
     set_img (mkImageItem (image (img st))
                (Some (nth 0 f 0, 0, last f 0 - nth 0 f 0,
                       INR (waterfall_rows st))))
       (set_freqs_mhz f st)).
Proof.
  intros Hfs Hn. cbv zeta.
  unfold update_freq_axis. unfold_method.
  destruct (Req_dec_T (sample_rate (sdr st)) 0) as [E|_]; [contradiction|].
  unfold fftfreq.
  destruct (Req_dec_T (INR (nfft st) * (1 / sample_rate (sdr st))) 0) as [E|_].
  { exfalso. apply Rmult_integral in E. destruct E as [E|E].
    - apply (not_0_INR (nfft st)); [lia|exact E].
    - unfold Rdiv in E. rewrite Rmult_1_l in E.
      now apply (Rinv_neq_0_compat _ Hfs). }
  unfold_method.
  set (f := map _ (fftshift _)).
  assert (Hlen : length f = nfft st).
  { unfold f. now rewrite length_map, fftshift_length, length_map,
      fftfreq_index_length. }
  destruct f as [|x f'] eqn:Ef; [simpl in Hlen; lia|].
  unfold_method. reflexivity.
Qed.

(** Whatever happens in it, [update_freq_axis] touches only the list
    of frequencies and the image rectangle. *)
Lemma update_freq_axis_frame (st : WaterfallApp) :
  exists f r,
    snd (update_freq_axis st)
    = set_img (mkImageItem (image (img st)) r) (set_freqs_mhz f st).
Proof.
  unfold update_freq_axis. unfold_method.
  destruct (Req_dec_T (sample_rate (sdr st)) 0) as [E|_].
  { exists (freqs_mhz st), (rect (img st)). now rewrite record_eta. }
  destruct (fftfreq _ _) as [f|e]; unfold_method.
  2:{ exists (freqs_mhz st), (rect (img st)). now rewrite record_eta. }
  destruct (map _ (fftshift f)) as [|x l] eqn:E; unfold_method.
  - exists [], (rect (img st)). clear.
    destruct st as [? ? ? ? ? ? ? ? ? ? ? ? [? ?] ? ?]. reflexivity.
  - eexists _, _. reflexivity.
Qed.

Lemma timer_start_frame (st : WaterfallApp) :
  exists t, snd (timer_start st) = set_timer t st.
Proof.
  unfold timer_start. unfold_method.
  destruct (fps st =? 0)%Z; unfold_method.
  - exists (timer st). now destruct st.
  - eexists. reflexivity.
Qed.

Lemma timer_start_ok (st : WaterfallApp) :
  fps st <> 0%Z ->
  timer_start st = (Ok tt, set_timer (mkQTimer true (Z.quot 1000 (fps st))) st).
Proof.
  intros H. unfold timer_start. unfold_method.
  apply Z.eqb_neq in H. now rewrite H.
Qed.

(** For an even size [n >= 2] and a non-zero sample rate: the axis
    has [n] columns, column 0 is at [center - rate/2], column [n-1] at
    [center + rate/2 - rate/n], and neighbouring columns are [rate/n]
    apart (the list is kept in MHz, hence the factor [1e6]). *)
Lemma freq_axis_edges_even (st : WaterfallApp) :
  Nat.even (nfft st) = true -> (0 < nfft st)%nat ->
  sample_rate (sdr st) <> 0 ->
  exists st',
    update_freq_axis st = (Ok tt, st') /\
    let n := nfft st in
    let rate := sample_rate (sdr st) in
    let center := center_freq (sdr st) in
    length (freqs_mhz st') = n /\
    nth 0 (freqs_mhz st') 0 * 1e6 = center - rate / 2 /\
    nth (n - 1) (freqs_mhz st') 0 * 1e6 = center + rate / 2 - rate / INR n /\
    (forall i, (S i < n)%nat ->
       (nth (S i) (freqs_mhz st') 0 - nth i (freqs_mhz st') 0) * 1e6
       = rate / INR n).
Proof.
  intros Hev Hn Hfs.
  eexists. split; [now apply update_freq_axis_ok|].
  cbv zeta. unfold_method.
  apply Nat.even_spec in Hev. destruct Hev as [m Hm].
  rewrite Hm in *. clear Hm.
  assert (Hm0 : INR m <> 0) by (apply not_0_INR; lia).
  set (rate := sample_rate (sdr st)) in *.
  set (center := center_freq (sdr st)).
  assert (HI : INR (2 * m) = 2 * INR m) by (rewrite mult_INR; simpl; lra).
  assert (Hval : 1 / (INR (2 * m) * (1 / rate)) = rate / INR (2 * m)).
  { rewrite HI. field. split; assumption. }
  rewrite Hval.
  assert (Hshift : fftshift (map (fun k => IZR k * (rate / INR (2 * m)))
                               (fftfreq_index (2 * m)))
                   = map (fun k => IZR k * (rate / INR (2 * m)))
                       (fftshift (fftfreq_index (2 * m)))).
  { unfold fftshift. rewrite length_map.
    now rewrite map_app, <- skipn_map, <- firstn_map. }
  rewrite Hshift, fftshift_index_even, !map_map.
  set (g := fun i : nat => _).
  assert (Hnth : forall i, (i < 2 * m)%nat ->
            nth i (map g (seq 0 (2 * m))) 0 = g i).
  { intros i Hi. rewrite (nth_indep _ 0 (g 0%nat))
      by (now rewrite length_map, length_seq).
    rewrite map_nth, seq_nth by assumption. reflexivity. }
  split; [now rewrite length_map, length_seq|].
  split; [|split].
  - rewrite Hnth by lia. unfold g. rewrite HI, minus_IZR, <- !INR_IZR_INZ.
    simpl INR. field. assumption.
  - rewrite Hnth by lia. unfold g.
    rewrite HI, minus_IZR, <- !INR_IZR_INZ, minus_INR by lia.
    rewrite HI. simpl INR. field. assumption.
  - intros i Hi. rewrite !Hnth by lia. unfold g.
    rewrite HI, !minus_IZR, <- !INR_IZR_INZ, S_INR. field. assumption.
Qed.

Lemma fftshift_map {A B} (f : A -> B) (l : list A) :
  fftshift (map f l) = map f (fftshift l).
Proof.
  unfold fftshift. rewrite length_map.
  now rewrite map_app, <- skipn_map, <- firstn_map.
Qed.

Lemma nth_map_lt {A B} (f : A -> B) (l : list A) (i : nat) (d : A) (d' : B) :
  (i < length l)%nat -> nth i (map f l) d' = f (nth i l d).
Proof.
  intros Hi. rewrite (nth_indep _ d' (f d)) by (now rewrite length_map).
  apply map_nth.
Qed.

(** [fftshift] puts into place [k] the element of place
    [(k + (n - n//2)) mod n]. *)
Lemma nth_fftshift {A} (l : list A) (k : nat) (d : A) :
  (k < length l)%nat ->
  nth k (fftshift l) d
  = nth ((k + (length l - length l / 2)) mod length l) l d.
Proof.
  intros Hk. unfold fftshift.
  set (n := length l) in *.
  assert (Hh : (n / 2 <= n)%nat).
  { rewrite half_nat_Z. Z.div_mod_to_equations. lia. }
  destruct (Nat.lt_ge_cases k (n / 2)) as [Hlt|Hge].
  - rewrite app_nth1 by (rewrite length_skipn; fold n; lia).
    rewrite nth_skipn. f_equal.
    rewrite Nat.mod_small by lia. lia.
  - rewrite app_nth2 by (rewrite length_skipn; fold n; lia).
    rewrite length_skipn. fold n.
    rewrite nth_firstn.
    destruct (Nat.ltb_spec (k - (n - (n - n / 2))) (n - n / 2)) as [_|Hc];
      [|lia].
    f_equal.
    replace (k + (n - n / 2))%nat with ((k - n / 2) + 1 * n)%nat by lia.
    rewrite Nat.Div0.mod_add, Nat.mod_small by lia. lia.
Qed.

Lemma fft_item_size_even (i : fft_item) :
  Nat.even (fft_item_size i) = true /\
  (fft_item_size i - fft_item_size i / 2 = fft_item_size i / 2)%nat.
Proof. destruct i; split; reflexivity. Qed.

(** C7.  For every size [n] the program offers (the four combo box
    entries), every centre frequency and every non-zero sample rate, the
    axis is computed and has [n] columns; column 0 is at
    [center - rate/2], the lowest edge, column [n-1] at
    [center + rate/2 - rate/n], the highest, and neighbouring columns are
    [rate/n] apart (the list is kept in MHz, hence the factor [1e6]).  The
    ordering is the centred one of the spectrum: column [k] of the
    spectrum holds the DFT bin number [(k + n/2) mod n], and column [k] of
    the axis is at the frequency [fftfreq] gives that bin. *)
Theorem freq_axis_edges (i : fft_item) (st : WaterfallApp) :
  nfft st = fft_item_size i ->
  sample_rate (sdr st) <> 0 ->
  exists st',
    update_freq_axis st = (Ok tt, st') /\
    let n := nfft st in
    let rate := sample_rate (sdr st) in
    let center := center_freq (sdr st) in
    length (freqs_mhz st') = n /\
    nth 0 (freqs_mhz st') 0 * 1e6 = center - rate / 2 /\
    nth (n - 1) (freqs_mhz st') 0 * 1e6 = center + rate / 2 - rate / INR n /\
    (forall k, (S k < n)%nat ->
       (nth (S k) (freqs_mhz st') 0 - nth k (freqs_mhz st') 0) * 1e6
       = rate / INR n) /\
    (forall k, (k < n)%nat ->
       nth k (freqs_mhz st') 0 * 1e6
       = center + IZR (nth ((k + n / 2) mod n) (fftfreq_index n) 0%Z)
                  * (rate / INR n)) /\
    (forall iq p,
       power_spectrum n (window st) iq = Ok p ->
       exists x,
         broadcast2 scale (map (fun z => sub z (mean iq)) iq) (window st)
         = Ok x /\
         forall k, (k < n)%nat ->
           nth k p 0
           = 20.0 * log10 (abs (dft_bin (resize x n) n ((k + n / 2) mod n))
                           + 1e-12)).
Proof.
  intros Hi Hfs.
  destruct (fft_item_size_even i) as (Hev & Hhalf).
  rewrite <- Hi in Hev, Hhalf.
  assert (Hn : (0 < nfft st)%nat)
    by (rewrite Hi; destruct i; apply Nat.ltb_lt; reflexivity).
  destruct (freq_axis_edges_even st Hev Hn Hfs)
    as (st' & Hrun & Hlen & H0 & Hlast & Hstep).
  exists st'. split; [exact Hrun|]. cbv zeta.
  split; [exact Hlen|]. split; [exact H0|]. split; [exact Hlast|].
  split; [exact Hstep|].
  assert (HI : INR (nfft st) <> 0) by (apply not_0_INR; lia).
  split.
  - intros k Hk.
    rewrite update_freq_axis_ok in Hrun by assumption.
    injection Hrun as <-. unfold_method.
    rewrite (nth_map_lt _ _ _ 0)
      by (now rewrite fftshift_length, length_map, fftfreq_index_length).
    rewrite nth_fftshift
      by (now rewrite length_map, fftfreq_index_length).
    rewrite length_map, fftfreq_index_length, Hhalf.
    rewrite (nth_map_lt _ _ _ 0%Z).
    + field. split; assumption.
    + rewrite fftfreq_index_length. apply Nat.mod_upper_bound. lia.
  - intros iq p Hp. unfold power_spectrum, obind in Hp.
    destruct (broadcast2 _ _ _) as [x|e]; [|discriminate].
    rewrite fft_ok in Hp by assumption. injection Hp as <-.
    exists x. split; [reflexivity|]. intros k Hk.
    rewrite (nth_map_lt _ _ _ 0)
      by (now rewrite length_map, fftshift_length, length_map, length_seq).
    rewrite (nth_map_lt _ _ _ zero)
      by (now rewrite fftshift_length, length_map, length_seq).
    rewrite nth_fftshift by (now rewrite length_map, length_seq).
    rewrite length_map, length_seq, Hhalf.
    assert (Hj : ((k + nfft st / 2) mod nfft st < nfft st)%nat)
      by (apply Nat.mod_upper_bound; lia).
    rewrite (nth_map_lt _ _ _ 0%nat) by (now rewrite length_seq).
    now rewrite seq_nth.
Qed.

Lemma freq_axis_edges_witness :
  exists st',
    update_freq_axis init_fields = (Ok tt, st') /\
    let n := nfft init_fields in
    let rate := sample_rate (sdr init_fields) in
    let center := center_freq (sdr init_fields) in
    length (freqs_mhz st') = n /\
    nth 0 (freqs_mhz st') 0 * 1e6 = center - rate / 2 /\
    nth (n - 1) (freqs_mhz st') 0 * 1e6 = center + rate / 2 - rate / INR n /\
    (forall k, (S k < n)%nat ->
       (nth (S k) (freqs_mhz st') 0 - nth k (freqs_mhz st') 0) * 1e6
       = rate / INR n) /\
    (forall k, (k < n)%nat ->
       nth k (freqs_mhz st') 0 * 1e6
       = center + IZR (nth ((k + n / 2) mod n) (fftfreq_index n) 0%Z)
                  * (rate / INR n)) /\
    (forall iq p,
       power_spectrum n (window init_fields) iq = Ok p ->
       exists x,
         broadcast2 scale (map (fun z => sub z (mean iq)) iq)
           (window init_fields)
         = Ok x /\
         forall k, (k < n)%nat ->
           nth k p 0
           = 20.0 * log10 (abs (dft_bin (resize x n) n ((k + n / 2) mod n))
                           + 1e-12)).
Proof.
  apply (freq_axis_edges Fft2048 init_fields).
  - reflexivity.
  - unfold init_fields. unfold_method. lra.
Defined.

(* ================================================================== *)
(** * Reconfiguration ([apply_settings]) and the shape invariant *)

Lemma same_shape_consistent (st st' : WaterfallApp) :
  same_shape st st' -> consistent st -> consistent st'.
Proof.
  intros (En & Ew & Ewf & Er). unfold consistent.
  now rewrite En, Ew, Ewf, Er.
Qed.

Lemma fft_item_size_pos (i : fft_item) : (0 < fft_item_size i)%nat.
Proof. destruct i; apply Nat.ltb_lt; reflexivity. Qed.

Lemma int_fft_item (i : fft_item) :
  PyStr.int (fft_item_text i) = Ok (fft_item_size i).
Proof. destruct i; vm_compute; reflexivity. Qed.

Lemma update_once_consistent (rd : read_result) (st : WaterfallApp) :
  consistent st -> consistent (snd (update_once rd st)).
Proof.
  intros Hcons.
  destruct (closing st) eqn:Hc.
  { now rewrite update_once_closing. }
  destruct rd as [iq|].
  2:{ unfold update_once. unfold_method. now rewrite Hc. }
  destruct (power_spectrum (nfft st) (window st) iq) as [p|e] eqn:Hp.
  2:{ now rewrite (update_once_spectrum_raises iq st e). }
  destruct (Nat.eq_dec (waterfall_rows st) 0) as [HR|HR].
  - destruct Hcons as (Hw & Hrows & Hcols).
    rewrite HR in Hrows. apply length_zero_iff_nil in Hrows.
    unfold update_once. unfold_method. rewrite Hc, Hp. unfold_method.
    rewrite Hrows. cbn [scroll_up set_last_row]. unfold_method.
    unfold consistent. unfold_method.
    repeat split; [exact Hw|simpl; lia|constructor].
  - rewrite (update_once_ok iq st p) by (auto; lia). cbn [snd].
    apply after_tick_consistent; [assumption|lia|].
    eapply power_spectrum_length; eassumption.
Qed.

Lemma closeEvent_consistent (st : WaterfallApp) :
  consistent st -> consistent (snd (closeEvent st)).
Proof.
  apply same_shape_consistent. unfold closeEvent, same_shape. unfold_method. auto.
Qed.

Lemma init_fields_consistent : consistent init_fields.
Proof.
  unfold consistent, init_fields. unfold_method.
  split; [apply hanning_length|apply full_shape].
Qed.

(** Restarting the timer and recomputing the axis touch the timer, the
    list of frequencies and the image rectangle, nothing else. *)
Lemma tail_frame (st : WaterfallApp) :
  exists t f r,
    snd (bind timer_start (fun _ => update_freq_axis) st)
    = set_img (mkImageItem (image (img st)) r)
        (set_freqs_mhz f (set_timer t st)).
Proof.
  unfold bind.
  destruct (timer_start_frame st) as (t & Ht).
  destruct (timer_start st) as [[[]|e] st1]; cbn [snd] in *; subst st1.
  - destruct (update_freq_axis_frame (set_timer t st)) as (f & r & E).
    exists t, f, r. exact E.
  - exists t, (freqs_mhz st), (rect (img st)).
    clear. destruct st as [? ? ? ? ? ? ? ? ? ? ? ? [? ?] ? ?]. reflexivity.
Qed.

Lemma tail_same_shape (st : WaterfallApp) :
  same_shape st (snd (bind timer_start (fun _ => update_freq_axis) st)).
Proof.
  destruct (tail_frame st) as (t & f & r & E). rewrite E.
  unfold same_shape. unfold_method. auto.
Qed.

Lemma init_consistent : consistent (snd (init init_fields)).
Proof.
  unfold init, bind.
  destruct (update_freq_axis_frame init_fields) as (f & r & E).
  destruct (update_freq_axis init_fields) as [[[]|e] st1]; cbn [snd] in E; subst st1.
  - set (st1 := set_img _ _).
    destruct (timer_start_frame st1) as (t & Ht).
    destruct (timer_start st1) as [[[]|e] st2]; cbn [snd] in Ht; subst st2;
      unfold modify; cbn [snd];
      (eapply same_shape_consistent; [|apply init_fields_consistent]);
      unfold st1, same_shape; unfold_method; auto.
  - cbn [snd].
    eapply same_shape_consistent; [|apply init_fields_consistent].
    unfold same_shape. unfold_method. auto.
Qed.

(** The constructor completes: the window starts open, with the
    fields of lines 26-48, the axis computed and the timer running. *)
Lemma init_started :
  exists t f r,
    init init_fields
    = (Ok tt, set_closing false
                (set_timer t
                   (set_img (mkImageItem None r)
                      (set_freqs_mhz f init_fields)))).
Proof.
  unfold init, bind.
  rewrite update_freq_axis_ok
    by (unfold init_fields; unfold_method; first [lra|lia]).
  rewrite timer_start_ok by (unfold init_fields; unfold_method; lia).
  unfold modify. eexists _, _, _. reflexivity.
Qed.

(** C1 as stated fails: on the window as constructed (2048 bins), a
    block of one sample is not rejected.  It is stretched along the
    window, the tick completes and stores a row of 2048 bins. *)
Lemma one_sample_block_accepted :
  let st := snd (init init_fields) in
  length [(1, 0)] <> nfft st /\
  power_spectrum (nfft st) (window st) [(1, 0)]
    = Ok (repeat (20 * log10 1e-12) 2048) /\
  update_once (Samples [(1, 0)]) st
    = (Ok tt, after_tick st (repeat (20 * log10 1e-12) 2048)).
Proof.
  cbv zeta.
  destruct init_started as (t & f & r & E).
  assert (Hcons : consistent (snd (init init_fields))) by apply init_consistent.
  rewrite E in *. cbn [snd] in *.
  set (st := set_closing _ _) in *.
  assert (Hn : nfft st = 2048%nat) by reflexivity.
  assert (Hp : power_spectrum (nfft st) (window st) [(1, 0)]
               = Ok (repeat (20 * log10 1e-12) 2048)).
  { rewrite Hn. apply power_spectrum_single; [lia|].
    destruct Hcons as (Hw & _). now rewrite Hw. }
  split; [rewrite Hn; simpl; lia|]. split; [exact Hp|].
  apply update_once_ok; try assumption; try reflexivity.
  change (waterfall_rows st) with 300%nat. lia.
Qed.

(** [strip] takes white space off both ends, the characters outside
    ASCII included: U+00A0 "AUTO" U+00A0 reads "auto" after
    [strip().lower()], as " AuTo" followed by a line feed does. *)
Example strip_lower_nbsp_auto : PyStr.lower (PyStr.strip nbsp_auto) = "auto"%string.
Proof. reflexivity. Qed.

Example strip_lower_ascii_auto :
  PyStr.lower (PyStr.strip (String " " ("AuTo" ++ String (ascii_of_nat 10) EmptyString)))
  = "auto"%string.
Proof. reflexivity. Qed.

Section Reconfiguration.

Variable py_float : string -> option R.

Lemma apply_gain_spec (text : string) (st : WaterfallApp) :
  apply_gain py_float text st
  = (Ok tt, set_sdr (set_gain (new_gain py_float text (gain (sdr st))) (sdr st)) st).
Proof.
  unfold apply_gain, new_gain. cbv zeta.
  destruct (String.eqb _ "auto"); [reflexivity|].
  destruct (py_float _); [reflexivity|].
  unfold_method. now destruct st as [? ? ? ? ? ? ? [? ? ? ?] ? ? ? ? ? ? ?].
Qed.

(** [apply_settings] is the assignments of lines 141-164 followed by the
    restart of the timer and the recomputation of the axis. *)
Lemma apply_settings_unfold (ui : Widgets) (st : WaterfallApp) :
  apply_settings py_float ui st
  = bind timer_start (fun _ => update_freq_axis) (reconfigured py_float ui st).
Proof.
  unfold apply_settings.
  cbv beta iota delta [bind get ret lift modify raise].
  rewrite apply_gain_spec, int_fft_item.
  unfold reconfigured. cbv zeta. unfold_method.
  destruct (Nat.eqb_spec (fft_item_size (fft_input ui)) (nfft st)) as [E|E];
    cbn [negb]; unfold_method; reflexivity.
Qed.

Lemma apply_settings_shape (ui : Widgets) (st : WaterfallApp) :
  same_shape (reconfigured py_float ui st) (snd (apply_settings py_float ui st)).
Proof. rewrite apply_settings_unfold. apply tail_same_shape. Qed.

Lemma reconfigured_nfft (ui : Widgets) (st : WaterfallApp) :
  nfft (reconfigured py_float ui st) = fft_item_size (fft_input ui).
Proof.
  unfold reconfigured. cbv zeta.
  destruct (Nat.eqb_spec (fft_item_size (fft_input ui)) (nfft st)) as [E|E];
    unfold_method; congruence.
Qed.

Lemma reconfigured_consistent (ui : Widgets) (st : WaterfallApp) :
  consistent st -> consistent (reconfigured py_float ui st).
Proof.
  intros Hcons. unfold reconfigured. cbv zeta.
  destruct (Nat.eqb_spec (fft_item_size (fft_input ui)) (nfft st)) as [E|E].
  - revert Hcons. apply same_shape_consistent.
    unfold same_shape. unfold_method. auto.
  - unfold consistent. unfold_method.
    split; [apply hanning_length|apply full_shape].
Qed.

Lemma apply_settings_consistent (ui : Widgets) (st : WaterfallApp) :
  consistent st -> consistent (snd (apply_settings py_float ui st)).
Proof.
  intros H. eapply same_shape_consistent; [apply apply_settings_shape|].
  now apply reconfigured_consistent.
Qed.

Lemma reachable_consistent (st : WaterfallApp) :
  reachable py_float st -> consistent st.
Proof.
  induction 1 as [|st ev _ IH].
  - apply init_consistent.
  - destruct ev as [rd|ui|]; cbn [handle].
    + now apply update_once_consistent.
    + now apply apply_settings_consistent.
    + now apply closeEvent_consistent.
Qed.

Lemma apply_settings_final (ui : Widgets) (st : WaterfallApp) :
  exists t f r,
    snd (apply_settings py_float ui st)
    = set_img (mkImageItem (image (img st)) r)
        (set_freqs_mhz f (set_timer t (reconfigured py_float ui st))).
Proof.
  rewrite apply_settings_unfold.
  destruct (tail_frame (reconfigured py_float ui st)) as (t & f & r & E).
  exists t, f, r. rewrite E. f_equal. f_equal.
  unfold reconfigured. cbv zeta.
  destruct (_ =? _)%nat; reflexivity.
Qed.

(** A tick never changes the size, the row count or the dynamic
    range, however it ends. *)
Lemma update_once_constants (rd : read_result) (st : WaterfallApp) :
  nfft (snd (update_once rd st)) = nfft st /\
  waterfall_rows (snd (update_once rd st)) = waterfall_rows st /\
  dynamic_range_db (snd (update_once rd st)) = dynamic_range_db st.
Proof.
  unfold update_once. unfold_method.
  destruct (closing st); [auto|].
  destruct rd as [iq|]; unfold_method; [|auto].
  destruct (power_spectrum _ _ _) as [p|e]; unfold_method; [|auto].
  destruct (set_last_row _ _) as [wf|e]; unfold_method; auto.
Qed.

(** The constants of the running program: a positive FFT size, 300
    rows, 60 dB of dynamic range. *)
Lemma reachable_constants (st : WaterfallApp) :
  reachable py_float st ->
  (0 < nfft st)%nat /\ waterfall_rows st = 300%nat /\
  dynamic_range_db st = 60.0.
Proof.
  induction 1 as [|st ev _ (IHn & IHr & IHd)].
  - destruct init_started as (t & f & r & E). rewrite E.
    unfold init_fields. unfold_method. repeat split. lia.
  - destruct ev as [rd|ui|]; cbn [handle].
    + destruct (update_once_constants rd st) as (En & Er & Ed).
      rewrite En, Er, Ed. auto.
    + destruct (apply_settings_final ui st) as (t & f & r & E).
      rewrite E. unfold_method.
      split; [rewrite reconfigured_nfft; apply fft_item_size_pos|].
      unfold reconfigured. cbv zeta.
      destruct (_ =? _)%nat; unfold_method; auto.
    + unfold closeEvent. unfold_method. auto.
Qed.

(** C2.  In every object the program can reach, the window has [nfft]
    coefficients, a block of [nfft] samples has a spectrum and every
    spectrum has [nfft] bins, and the waterfall is a [waterfall_rows] by
    [nfft] matrix.  [apply_settings]
    keeps it so, leaves [nfft] at the selected size, and when the selected
    size differs from the current one it has, in that one call, rebuilt
    the window as [hanning] of the new size, replaced the matrix by one
    filled with -120 and cleared the smoothed level. *)
Theorem fft_size_invariant (st : WaterfallApp) :
  reachable py_float st ->
  consistent st /\
  (forall iq p,
      power_spectrum (nfft st) (window st) iq = Ok p -> length p = nfft st) /\
  (forall iq,
      length iq = nfft st ->
      exists p, power_spectrum (nfft st) (window st) iq = Ok p) /\
  (forall ui,
      let st' := snd (apply_settings py_float ui st) in
      consistent st' /\
      nfft st' = fft_item_size (fft_input ui) /\
      (fft_item_size (fft_input ui) <> nfft st ->
       window st' = hanning (fft_item_size (fft_input ui)) /\
       waterfall st'
         = full (waterfall_rows st) (fft_item_size (fft_input ui)) (-120.0) /\
       db_max_smooth st' = None)).
Proof.
  intros Hreach.
  pose proof (reachable_consistent st Hreach) as Hcons.
  split; [exact Hcons|]. split; [|split].
  - intros iq p. apply power_spectrum_length.
  - intros iq Hiq.
    destruct (reachable_constants st Hreach) as (Hn & _).
    destruct (power_spectrum_total (nfft st) (window st) iq
                (proj1 Hcons) Hiq Hn) as (p & Hp & _).
    now exists p.
  - intros ui. cbv zeta.
    split; [now apply apply_settings_consistent|].
    destruct (apply_settings_shape ui st) as (En & Ew & Ewf & Er).
    split; [rewrite En; apply reconfigured_nfft|].
    intros Hne.
    destruct (apply_settings_final ui st) as (t & f & r & E).
    rewrite E. unfold reconfigured. cbv zeta.
    apply Nat.eqb_neq in Hne. rewrite Hne. unfold_method. auto.
Qed.

(** C9.  With the spin boxes in their ranges, a gain text that (trimmed
    and in lower case, as line 145 reads it) is neither "auto" nor accepted
    by [float] leaves the device gain as it was; [apply_settings]
    completes without raising, and the rest of the settings are applied:
    centre frequency, sample rate, FFT size, frame rate and timer. *)
Theorem invalid_gain_text_ignored (ui : Widgets) (st : WaterfallApp) :
  widgets_in_range ui ->
  String.eqb (PyStr.lower (PyStr.strip (gain_input ui))) "auto" = false ->
  py_float (PyStr.lower (PyStr.strip (gain_input ui))) = None ->
  exists st',
    apply_settings py_float ui st = (Ok tt, st') /\
    gain (sdr st') = gain (sdr st) /\
    center_freq (sdr st') = freq_input ui * 1e6 /\
    sample_rate (sdr st') = sr_input ui * 1e6 /\
    nfft st' = fft_item_size (fft_input ui) /\
    fps st' = fps_input ui /\
    timer st' = mkQTimer true (Z.quot 1000 (fps_input ui)).
Proof.
  intros (Hfreq & Hsr & Hfps) Hauto Hfloat.
  set (R0 := reconfigured py_float ui st).
  assert (Hfps0 : fps R0 = fps_input ui).
  { unfold R0, reconfigured. cbv zeta. unfold_method. reflexivity. }
  assert (Hsdr : sdr R0 = mkRtlSdr (sr_input ui * 1e6) (freq_input ui * 1e6)
                            (gain (sdr st)) (sdr_closed (sdr st))).
  { unfold R0, reconfigured, new_gain. cbv zeta. rewrite Hauto, Hfloat.
    destruct (_ =? _)%nat; reflexivity. }
  assert (Hn : nfft R0 = fft_item_size (fft_input ui))
    by apply reconfigured_nfft.
  rewrite apply_settings_unfold. fold R0. unfold bind.
  rewrite timer_start_ok by (rewrite Hfps0; lia).
  rewrite update_freq_axis_ok.
  - eexists. split; [reflexivity|].
    unfold_method. rewrite Hsdr, Hn, Hfps0. unfold_method. repeat split; reflexivity.
  - unfold_method. rewrite Hsdr. unfold_method. lra.
  - unfold_method. rewrite Hn. apply fft_item_size_pos.
Qed.

(** C10.  When the selected FFT size is the current one,
    [apply_settings] leaves the waterfall, the window and the smoothed
    level as they were, however the call ends; so do the size, the row
    count, the dynamic range, the displayed image and the closing flag.
    What it may change is the device settings, the frame rate, the timer,
    the list of frequencies and the image rectangle. *)
Theorem same_size_keeps_history (ui : Widgets) (st : WaterfallApp) :
  fft_item_size (fft_input ui) = nfft st ->
  let st' := snd (apply_settings py_float ui st) in
  waterfall st' = waterfall st /\
  window st' = window st /\
  db_max_smooth st' = db_max_smooth st /\
  nfft st' = nfft st /\
  waterfall_rows st' = waterfall_rows st /\
  dynamic_range_db st' = dynamic_range_db st /\
  image (img st') = image (img st) /\
  closing st' = closing st /\
  center_freq_hz st' = center_freq_hz st /\
  sample_rate_hz st' = sample_rate_hz st /\
  gain_db st' = gain_db st.
Proof.
  intros Hsame. cbv zeta.
  destruct (apply_settings_final ui st) as (t & f & r & E).
  rewrite E. unfold reconfigured. cbv zeta.
  apply Nat.eqb_eq in Hsame. rewrite Hsame. unfold_method.
  repeat split; reflexivity.
Qed.

End Reconfiguration.

Lemma fft_size_invariant_witness :
  let st := snd (init init_fields) in
  consistent st /\
  (forall iq p,
      power_spectrum (nfft st) (window st) iq = Ok p -> length p = nfft st) /\
  (forall iq,
      length iq = nfft st ->
      exists p, power_spectrum (nfft st) (window st) iq = Ok p) /\
  (forall ui,
      let st' := snd (apply_settings float_none ui st) in
      consistent st' /\
      nfft st' = fft_item_size (fft_input ui) /\
      (fft_item_size (fft_input ui) <> nfft st ->
       window st' = hanning (fft_item_size (fft_input ui)) /\
       waterfall st'
         = full (waterfall_rows st) (fft_item_size (fft_input ui)) (-120.0) /\
       db_max_smooth st' = None)).
Proof.
  apply (fft_size_invariant float_none (snd (init init_fields))).
  apply reach_init.
Defined.

Lemma invalid_gain_text_ignored_witness :
  exists st',
    apply_settings float_35 ui_bad_gain small_app = (Ok tt, st') /\
    gain (sdr st') = gain (sdr small_app) /\
    center_freq (sdr st') = freq_input ui_bad_gain * 1e6 /\
    sample_rate (sdr st') = sr_input ui_bad_gain * 1e6 /\
    nfft st' = fft_item_size (fft_input ui_bad_gain) /\
    fps st' = fps_input ui_bad_gain /\
    timer st' = mkQTimer true (Z.quot 1000 (fps_input ui_bad_gain)).
Proof.
  apply (invalid_gain_text_ignored float_35 ui_bad_gain small_app).
  - unfold widgets_in_range, ui_bad_gain. simpl. repeat split; try lra; lia.
  - reflexivity.
  - reflexivity.
Defined.

Lemma same_size_keeps_history_witness :
  let st' := snd (apply_settings float_35 ui_same_size init_fields) in
  waterfall st' = waterfall init_fields /\
  window st' = window init_fields /\
  db_max_smooth st' = db_max_smooth init_fields /\
  nfft st' = nfft init_fields /\
  waterfall_rows st' = waterfall_rows init_fields /\
  dynamic_range_db st' = dynamic_range_db init_fields /\
  image (img st') = image (img init_fields) /\
  closing st' = closing init_fields /\
  center_freq_hz st' = center_freq_hz init_fields /\
  sample_rate_hz st' = sample_rate_hz init_fields /\
  gain_db st' = gain_db init_fields.
Proof.
  apply (same_size_keeps_history float_35 ui_same_size init_fields).
  reflexivity.
Defined.

(* ================================================================== *)
(** * Further properties of the frequency axis *)

(** For every size the shifted multipliers are [i - n//2] for
    [i = 0 .. n-1]. *)
Lemma fftshift_index_all (n : nat) :
  fftshift (fftfreq_index n)
  = map (fun i => (Z.of_nat i - Z.of_nat (n / 2))%Z) (seq 0 n).
Proof.
  unfold fftshift. rewrite fftfreq_index_length.
  unfold fftfreq_index.
  assert (Hh : (n / 2 <= n)%nat).
  { rewrite half_nat_Z. Z.div_mod_to_equations. lia. }
  assert (HN : Z.to_nat ((Z.of_nat n - 1) / 2 + 1) = (n - n / 2)%nat).
  { rewrite half_nat_Z. Z.div_mod_to_equations. lia. }
  rewrite HN.
  set (h := (n / 2)%nat) in *.
  set (l1 := map Z.of_nat (seq 0 (n - h))).
  set (l2 := map (fun i => (Z.of_nat i - Z.of_nat h)%Z) (seq 0 h)).
  assert (H1 : length l1 = (n - h)%nat)
    by (unfold l1; now rewrite length_map, length_seq).
  rewrite skipn_app, firstn_app, H1, Nat.sub_diag.
  rewrite skipn_all2 by lia. rewrite firstn_all2 by lia.
  cbn [skipn firstn app]. rewrite app_nil_r.
  assert (Hs : seq 0 n = seq 0 h ++ seq h (n - h)).
  { rewrite <- seq_app. f_equal. lia. }
  rewrite Hs, map_app. f_equal.
  unfold l1.
  replace (seq h (n - h)) with (seq (h + 0) (n - h)) by (f_equal; lia).
  rewrite seq_offset, map_map.
  apply map_ext. intros i. lia.
Qed.

(** The axis computed on a window with a positive size and a non-zero
    sample rate, column by column. *)
Lemma update_freq_axis_columns (st : WaterfallApp) :
  sample_rate (sdr st) <> 0 -> (0 < nfft st)%nat ->
  let n := nfft st in
  let f := map (fun i => ((INR i - INR (n / 2)) * (sample_rate (sdr st) / INR n)
                          + center_freq (sdr st)) / 1e6) (seq 0 n) in
  update_freq_axis st
  = (Ok tt,
     set_img (mkImageItem (image (img st))
                (Some (nth 0 f 0, 0, last f 0 - nth 0 f 0,
                       INR (waterfall_rows st))))
       (set_freqs_mhz f st)).
Proof.
  intros Hfs Hn. cbv zeta.
  rewrite update_freq_axis_ok by assumption. cbv zeta.
  assert (HI : INR (nfft st) <> 0) by (apply not_0_INR; lia).
  assert (E : map (fun x => (x + center_freq (sdr st)) / 1e6)
                (fftshift
                   (map (fun k => IZR k * (1 / (INR (nfft st) * (1 / sample_rate (sdr st)))))
                      (fftfreq_index (nfft st))))
              = map (fun i => ((INR i - INR (nfft st / 2))
                               * (sample_rate (sdr st) / INR (nfft st))
                               + center_freq (sdr st)) / 1e6) (seq 0 (nfft st))).
  { rewrite fftshift_map, fftshift_index_all, !map_map.
    apply map_ext. intros i.
    rewrite minus_IZR, <- !INR_IZR_INZ. field. split; assumption. }
  now rewrite E.
Qed.

Lemma nth_map_seq (g : nat -> R) (n i : nat) :
  (i < n)%nat -> nth i (map g (seq 0 n)) 0 = g i.
Proof.
  intros Hi. rewrite (nth_indep _ 0 (g 0%nat))
    by (now rewrite length_map, length_seq).
  now rewrite map_nth, seq_nth.
Qed.

Lemma last_map_seq (g : nat -> R) (n : nat) :
  (0 < n)%nat -> last (map g (seq 0 n)) 0 = g (n - 1)%nat.
Proof.
  intros Hn. destruct n as [|n]; [lia|].
  rewrite seq_S, map_app. cbn [map Nat.add]. rewrite last_last.
  f_equal. lia.
Qed.

(** X3.  For every size [n >= 1] and non-zero sample rate the axis is
    computed and has [n] columns; column [i] is at
    [center + (i - n//2) * rate/n] (the list is kept in MHz), so the
    centre frequency itself is column [n//2], for odd sizes as for even
    ones. *)
Theorem freq_axis_columns (st : WaterfallApp) :
  (0 < nfft st)%nat -> sample_rate (sdr st) <> 0 ->
  exists st',
    update_freq_axis st = (Ok tt, st') /\
    let n := nfft st in
    let rate := sample_rate (sdr st) in
    let center := center_freq (sdr st) in
    length (freqs_mhz st') = n /\
    (forall i, (i < n)%nat ->
       nth i (freqs_mhz st') 0 * 1e6
       = center + (INR i - INR (n / 2)) * (rate / INR n)) /\
    nth (n / 2) (freqs_mhz st') 0 * 1e6 = center.
Proof.
  intros Hn Hfs.
  eexists. split; [now apply update_freq_axis_columns|].
  cbv zeta. unfold_method.
  assert (HI : INR (nfft st) <> 0) by (apply not_0_INR; lia).
  split; [now rewrite length_map, length_seq|]. split.
  - intros i Hi. rewrite nth_map_seq by assumption. field. assumption.
  - rewrite nth_map_seq.
    + field. assumption.
    + rewrite half_nat_Z. Z.div_mod_to_equations. lia.
Qed.

Lemma freq_axis_columns_witness :
  exists st',
    update_freq_axis (set_nfft 3 small_app) = (Ok tt, st') /\
    let n := nfft (set_nfft 3 small_app) in
    let rate := sample_rate (sdr (set_nfft 3 small_app)) in
    let center := center_freq (sdr (set_nfft 3 small_app)) in
    length (freqs_mhz st') = n /\
    (forall i, (i < n)%nat ->
       nth i (freqs_mhz st') 0 * 1e6
       = center + (INR i - INR (n / 2)) * (rate / INR n)) /\
    nth (n / 2) (freqs_mhz st') 0 * 1e6 = center.
Proof.
  apply (freq_axis_columns (set_nfft 3 small_app)).
  - simpl; lia.
  - simpl; lra.
Defined.

(** X4.  The rectangle handed to the image starts at the frequency of
    column 0, has the height [waterfall_rows], and its width is the
    distance from column 0 to column [n-1], that is [rate - rate/n]: one
    bin short of the sample rate.  The displayed array is not touched. *)
Theorem image_rect_span (st : WaterfallApp) :
  (0 < nfft st)%nat -> sample_rate (sdr st) <> 0 ->
  exists st' x width,
    update_freq_axis st = (Ok tt, st') /\
    rect (img st') = Some (x, 0, width, INR (waterfall_rows st)) /\
    x = nth 0 (freqs_mhz st') 0 /\
    width * 1e6 = sample_rate (sdr st) - sample_rate (sdr st) / INR (nfft st) /\
    image (img st') = image (img st).
Proof.
  intros Hn Hfs.
  eexists _, _, _. split; [now apply update_freq_axis_columns|].
  cbv zeta. unfold_method.
  assert (HI : INR (nfft st) <> 0) by (apply not_0_INR; lia).
  split; [reflexivity|]. split; [reflexivity|]. split; [|reflexivity].
  rewrite last_map_seq, nth_map_seq by assumption.
  rewrite minus_INR by lia. simpl INR. field. assumption.
Qed.

Lemma image_rect_span_witness :
  exists st' x width,
    update_freq_axis small_app = (Ok tt, st') /\
    rect (img st') = Some (x, 0, width, INR (waterfall_rows small_app)) /\
    x = nth 0 (freqs_mhz st') 0 /\
    width * 1e6 = sample_rate (sdr small_app)
                  - sample_rate (sdr small_app) / INR (nfft small_app) /\
    image (img st') = image (img small_app).
Proof.
  apply (image_rect_span small_app).
  - simpl; lia.
  - simpl; lra.
Defined.

(** X5.  With a sample rate of zero, or a size of zero, the axis cannot
    be computed: [update_freq_axis] raises [ZeroDivisionError] and has
    changed nothing, the old list of frequencies and rectangle
    included. *)
Theorem freq_axis_zero_division (st : WaterfallApp) :
  sample_rate (sdr st) = 0 \/ nfft st = 0%nat ->
  update_freq_axis st = (Raise ZeroDivisionError, st).
Proof.
  intros H. unfold update_freq_axis. unfold_method.
  destruct (Req_dec_T (sample_rate (sdr st)) 0) as [E|Hne]; [reflexivity|].
  destruct H as [H|H]; [contradiction|].
  unfold fftfreq. rewrite H.
  destruct (Req_dec_T (INR 0 * (1 / sample_rate (sdr st))) 0) as [_|Hc].
  - reflexivity.
  - exfalso. apply Hc. simpl. lra.
Qed.

Lemma freq_axis_zero_division_witness :
  update_freq_axis (set_nfft 0 small_app)
  = (Raise ZeroDivisionError, set_nfft 0 small_app).
Proof.
  apply (freq_axis_zero_division (set_nfft 0 small_app)).
  right. reflexivity.
Defined.

(* ================================================================== *)
(** * Further properties of a tick *)

(** X6.  However a tick ends (closing window, failed read, rejected
    block, or a stored row), it leaves alone everything but the smoothed
    level, the matrix and the displayed array: the device settings, the
    size, the window, the frame rate, the timer, the list of frequencies,
    the image rectangle, the row count, the dynamic range and the closing
    flag are as before. *)
Theorem tick_frame (rd : read_result) (st : WaterfallApp) :
  let st' := snd (update_once rd st) in
  sdr st' = sdr st /\
  nfft st' = nfft st /\
  window st' = window st /\
  fps st' = fps st /\
  timer st' = timer st /\
  freqs_mhz st' = freqs_mhz st /\
  rect (img st') = rect (img st) /\
  waterfall_rows st' = waterfall_rows st /\
  dynamic_range_db st' = dynamic_range_db st /\
  closing st' = closing st.
Proof.
  cbv zeta. unfold update_once. unfold_method.
  destruct (closing st) eqn:Hc; [repeat split; exact Hc|].
  destruct rd as [iq|]; unfold_method; [|repeat split; exact Hc].
  destruct (power_spectrum _ _ _) as [p|e]; unfold_method;
    [|repeat split; exact Hc].
  destruct (set_last_row _ _) as [wf|e]; unfold_method;
    repeat split; exact Hc.
Qed.

(** X7.  On a closing window a tick does nothing at all: it does not
    read the device (so a failing device is not noticed), it returns
    normally and the object is unchanged; and so for any run of ticks. *)
Theorem ticks_on_closing_window (st : WaterfallApp) (blocks : list (list C)) :
  closing st = true ->
  (forall rd, update_once rd st = (Ok tt, st)) /\
  run_ticks st blocks = st.
Proof.
  intros Hc. split.
  - intros rd. now apply update_once_closing.
  - induction blocks as [|iq rest IH]; [reflexivity|].
    unfold run_ticks. cbn [fold_left].
    rewrite update_once_closing by assumption. exact IH.
Qed.

Lemma ticks_on_closing_window_witness :
  (forall rd, update_once rd (set_closing true small_app)
              = (Ok tt, set_closing true small_app)) /\
  run_ticks (set_closing true small_app) [repeat zero 4; []]
  = set_closing true small_app.
Proof.
  apply (ticks_on_closing_window (set_closing true small_app)
           [repeat zero 4; []]).
  reflexivity.
Defined.

(** X8.  Any number [k] of good ticks on a consistent, open window with
    at least one row: the matrix keeps its row count; it is the old
    matrix followed by the [k] stored rows with the [k] oldest rows
    dropped, so for [k] up to the row count the rows that remain of the
    old matrix are its last ones, moved up by [k], and the stored rows sit
    below them in the order of the ticks. *)
Theorem scroll_k_ticks (st : WaterfallApp) (blocks : list (list C)) :
  consistent st -> closing st = false ->
  (0 < nfft st)%nat -> (0 < waterfall_rows st)%nat ->
  Forall (fun iq => length iq = nfft st) blocks ->
  let k := length blocks in
  let wf := waterfall (run_ticks st blocks) in
  length wf = waterfall_rows st /\
  wf = skipn k (waterfall st ++ pushed_rows st blocks) /\
  ((k <= waterfall_rows st)%nat ->
   wf = skipn k (waterfall st) ++ pushed_rows st blocks).
Proof.
  intros Hcons Hc Hn HR Hall. cbv zeta.
  assert (Hrows : length (pushed_rows st blocks) = length blocks).
  { clear. revert st. induction blocks as [|iq rest IH]; intros st; simpl;
      [reflexivity|now rewrite IH]. }
  pose proof (run_ticks_waterfall blocks st Hcons Hc Hn HR Hall) as Hwf.
  destruct Hcons as (_ & HRlen & _).
  rewrite Hwf. split; [|split].
  - rewrite length_skipn, length_app, Hrows, HRlen. lia.
  - reflexivity.
  - intros Hk. rewrite skipn_app.
    replace (length blocks - length (waterfall st))%nat with 0%nat by lia.
    reflexivity.
Qed.

Lemma scroll_k_ticks_witness :
  let st := small_app in
  let blocks := [repeat (1, 0) 4] in
  let k := length blocks in
  let wf := waterfall (run_ticks st blocks) in
  length wf = waterfall_rows st /\
  wf = skipn k (waterfall st ++ pushed_rows st blocks) /\
  ((k <= waterfall_rows st)%nat ->
   wf = skipn k (waterfall st) ++ pushed_rows st blocks).
Proof.
  apply (scroll_k_ticks small_app [repeat (1, 0) 4]).
  - apply small_app_consistent.
  - reflexivity.
  - simpl; lia.
  - simpl; lia.
  - repeat constructor.
Defined.

(* ================================================================== *)
(** * Further properties of the level *)

Lemma sorted_nth_le (s : list R) :
  StronglySorted Rle s ->
  forall i j, (i <= j)%nat -> (j < length s)%nat -> nth i s 0 <= nth j s 0.
Proof.
  induction 1 as [|x s Hs IH Hx]; intros i j Hij Hj; [simpl in Hj; lia|].
  destruct i as [|i]; destruct j as [|j]; cbn [nth]; simpl in Hj.
  - lra.
  - rewrite Forall_forall in Hx. apply Hx. apply nth_In. lia.
  - lia.
  - apply IH; lia.
Qed.

Lemma sort_strongly_sorted (l : list R) : StronglySorted Rle (sort l).
Proof.
  apply Sorted_StronglySorted.
  - intros x y z. apply Rle_trans.
  - apply sort_sorted.
Qed.

Lemma sort_length (l : list R) : length (sort l) = length l.
Proof. symmetry. apply Permutation_length. apply sort_perm. Qed.

(** The percentile of a non-empty array lies between two of its order
    statistics, hence between two of its values. *)
Lemma percentile_between (a : list R) (q : nat) :
  a <> [] -> (q <= 100)%nat ->
  exists x y, In x a /\ In y a /\ x <= percentile a q <= y.
Proof.
  intros Hne Hq.
  assert (Hlen : (0 < length a)%nat).
  { destruct a; [congruence|simpl; lia]. }
  unfold percentile.
  set (v := ((length a - 1) * q)%nat).
  set (lo := (v / 100)%nat).
  set (hi := Nat.min (lo + 1) (length a - 1)).
  assert (Hlo : (lo <= length a - 1)%nat).
  { unfold lo. apply Nat.Div0.div_le_upper_bound. unfold v. nia. }
  assert (Hlohi : (lo <= hi)%nat) by (unfold hi; lia).
  assert (Hhi : (hi < length (sort a))%nat)
    by (rewrite sort_length; unfold hi; lia).
  pose proof (sorted_nth_le (sort a) (sort_strongly_sorted a) lo hi Hlohi Hhi)
    as Hle.
  assert (Hg : 0 <= INR (v mod 100) / 100 <= 1).
  { pose proof (Nat.mod_upper_bound v 100 ltac:(lia)) as Hm.
    pose proof (pos_INR (v mod 100)) as H0.
    assert (INR (v mod 100) <= 100).
    { replace 100 with (INR 100) by (simpl; lra). apply le_INR. lia. }
    split; lra. }
  exists (nth lo (sort a) 0), (nth hi (sort a) 0).
  split; [|split].
  - apply (Permutation_in _ (Permutation_sym (sort_perm a))).
    apply nth_In. lia.
  - apply (Permutation_in _ (Permutation_sym (sort_perm a))).
    apply nth_In. lia.
  - nra.
Qed.

(** The level a tick leaves once the spectrum is there, whether or not
    the row can be stored afterwards. *)
Lemma update_once_level (iq : list C) (st : WaterfallApp) (p : list R) :
  closing st = false ->
  power_spectrum (nfft st) (window st) iq = Ok p ->
  db_max_smooth (snd (update_once (Samples iq) st)) = Some (tick_db_max st p).
Proof.
  intros Hc Hp. unfold update_once. unfold_method. rewrite Hc, Hp.
  unfold_method.
  destruct (set_last_row _ _) as [wf|e]; unfold_method; reflexivity.
Qed.

Lemma update_once_same_input (rd : read_result) (st : WaterfallApp) :
  nfft (snd (update_once rd st)) = nfft st /\
  window (snd (update_once rd st)) = window st /\
  closing (snd (update_once rd st)) = closing st.
Proof.
  unfold update_once. unfold_method.
  destruct (closing st) eqn:Hc; [auto|].
  destruct rd as [iq|]; unfold_method; [|auto].
  destruct (power_spectrum _ _ _) as [p|e]; unfold_method; [|auto].
  destruct (set_last_row _ _) as [wf|e]; unfold_method; auto.
Qed.

Lemma spectrum_nonempty (n : nat) (w : list R) (iq : list C) (p : list R) :
  power_spectrum n w iq = Ok p -> p <> [].
Proof.
  intros Hp E. pose proof (power_spectrum_length _ _ _ _ Hp) as Hlen.
  subst p. simpl in Hlen. subst n.
  unfold power_spectrum, obind in Hp.
  destruct (broadcast2 _ _ _); [|discriminate].
  unfold fft in Hp. simpl in Hp. discriminate.
Qed.

(** X9.  The first tick after the level was cleared sets the ceiling to
    a value that lies between two bins of the spectrum it came from, so
    between its smallest and its largest bin: the top of the scale is
    never outside the data. *)
Theorem first_ceiling_within_spectrum (st : WaterfallApp) (iq : list C)
  (p : list R) :
  closing st = false ->
  db_max_smooth st = None ->
  power_spectrum (nfft st) (window st) iq = Ok p ->
  exists c x y,
    db_max_smooth (snd (update_once (Samples iq) st)) = Some c /\
    In x p /\ In y p /\ x <= c <= y.
Proof.
  intros Hc Hnone Hp.
  destruct (percentile_between p 99) as (x & y & Hx & Hy & Hb).
  - eapply spectrum_nonempty; eassumption.
  - lia.
  - exists (percentile p 99), x, y.
    rewrite (update_once_level iq st p Hc Hp).
    unfold tick_db_max. rewrite Hnone. cbn [smooth]. auto.
Qed.

Lemma first_ceiling_within_spectrum_witness :
  exists c x y,
    db_max_smooth (snd (update_once (Samples [(1, 0)]) small_app)) = Some c /\
    In x (repeat (20 * log10 1e-12) 4) /\
    In y (repeat (20 * log10 1e-12) 4) /\ x <= c <= y.
Proof.
  apply (first_ceiling_within_spectrum small_app [(1, 0)]
           (repeat (20 * log10 1e-12) 4)).
  - reflexivity.
  - reflexivity.
  - apply power_spectrum_single; [simpl; lia|reflexivity].
Defined.

Lemma run_ticks_cons (st : WaterfallApp) (iq : list C) (rest : list (list C)) :
  run_ticks st (iq :: rest)
  = run_ticks (snd (update_once (Samples iq) st)) rest.
Proof. reflexivity. Qed.

Lemma repeated_block_from_level (iq : list C) (p : list R) (k : nat) :
  forall st m,
    closing st = false ->
    power_spectrum (nfft st) (window st) iq = Ok p ->
    db_max_smooth st = Some m ->
    db_max_smooth (run_ticks st (repeat iq k))
    = Some (percentile p 99 + 0.9 ^ k * (m - percentile p 99)).
Proof.
  induction k as [|k IH]; intros st m Hc Hp Hm.
  - cbn [repeat run_ticks fold_left]. rewrite Hm. f_equal. simpl. lra.
  - cbn [repeat]. rewrite run_ticks_cons.
    destruct (update_once_same_input (Samples iq) st) as (En & Ew & Ec).
    rewrite (IH _ (0.9 * m + 0.1 * percentile p 99)).
    + f_equal. simpl. lra.
    + congruence.
    + now rewrite En, Ew.
    + rewrite (update_once_level iq st p Hc Hp).
      unfold tick_db_max. now rewrite Hm.
Qed.

(** X10.  Feeding the same block tick after tick: with no level kept
    before, the ceiling is the block's 99th percentile [c] from the first
    tick on; with a level [m] kept before, after [k] ticks it is
    [c + 0.9^k * (m - c)], so the distance to [c] shrinks by the factor
    0.9 with every tick. *)
Theorem repeated_block_level (st : WaterfallApp) (iq : list C) (p : list R)
  (k : nat) :
  closing st = false ->
  power_spectrum (nfft st) (window st) iq = Ok p ->
  db_max_smooth (run_ticks st (repeat iq (S k)))
  = Some (match db_max_smooth st with
          | None => percentile p 99
          | Some m => percentile p 99 + 0.9 ^ S k * (m - percentile p 99)
          end).
Proof.
  intros Hc Hp.
  destruct (db_max_smooth st) as [m|] eqn:Hm.
  - now apply repeated_block_from_level.
  - cbn [repeat]. rewrite run_ticks_cons.
    destruct (update_once_same_input (Samples iq) st) as (En & Ew & Ec).
    rewrite (repeated_block_from_level iq p k _ (percentile p 99)).
    + f_equal. lra.
    + congruence.
    + now rewrite En, Ew.
    + rewrite (update_once_level iq st p Hc Hp).
      unfold tick_db_max. now rewrite Hm.
Qed.

Lemma repeated_block_level_witness :
  db_max_smooth (run_ticks small_app (repeat [(1, 0)] 3))
  = Some (match db_max_smooth small_app with
          | None => percentile (repeat (20 * log10 1e-12) 4) 99
          | Some m => percentile (repeat (20 * log10 1e-12) 4) 99
                      + 0.9 ^ 3 * (m - percentile (repeat (20 * log10 1e-12) 4) 99)
          end).
Proof.
  apply (repeated_block_level small_app [(1, 0)]
           (repeat (20 * log10 1e-12) 4) 2).
  - reflexivity.
  - apply power_spectrum_single; [simpl; lia|reflexivity].
Defined.

(* ================================================================== *)
(** * Further invariants of the running program *)

Lemma hanning_bounds (M : nat) : Forall (fun c => 0 <= c <= 1) (hanning M).
Proof.
  destruct M as [|[|m]]; cbn [hanning].
  - constructor.
  - constructor; [lra|constructor].
  - apply Forall_forall. intros c Hc.
    apply in_map_iff in Hc. destruct Hc as (k & <- & _).
    match goal with |- context [cos ?x] => pose proof (COS_bound x) end.
    lra.
Qed.

Lemma hanning_ends (M : nat) :
  (2 <= M)%nat -> nth 0 (hanning M) 0 = 0 /\ last (hanning M) 0 = 0.
Proof.
  intros HM. destruct M as [|[|m]]; [lia|lia|].
  set (M := S (S m)) in *.
  assert (HI : INR M - 1 <> 0).
  { unfold M. rewrite !S_INR. pose proof (pos_INR m). lra. }
  change (hanning M)
    with (map (fun k => 0.5 + 0.5 * cos (PI * (1 - INR M + 2 * INR k) / (INR M - 1)))
              (seq 0 M)).
  split.
  - rewrite nth_map_seq by (unfold M; lia).
    replace (PI * (1 - INR M + 2 * INR 0) / (INR M - 1)) with (- PI)
      by (simpl INR; field; assumption).
    rewrite cos_neg, cos_PI. lra.
  - rewrite last_map_seq by (unfold M; lia).
    replace (PI * (1 - INR M + 2 * INR (M - 1)) / (INR M - 1)) with PI.
    + rewrite cos_PI. lra.
    + rewrite minus_INR by (unfold M; lia). simpl INR. field. assumption.
Qed.

Lemma fft_item_size_ge (i : fft_item) : (1024 <= fft_item_size i)%nat.
Proof. destruct i; apply Nat.leb_le; reflexivity. Qed.

Lemma init_open : closing (snd (init init_fields)) = false.
Proof. destruct init_started as (t & f & r & E). now rewrite E. Qed.

Section Running.

Variable py_float : string -> option R.

Lemma reachable_size (st : WaterfallApp) :
  reachable py_float st -> exists i, nfft st = fft_item_size i.
Proof.
  induction 1 as [|st ev _ (i & IH)].
  - exists Fft2048. destruct init_started as (t & f & r & E). now rewrite E.
  - destruct ev as [rd|ui|]; cbn [handle].
    + exists i. destruct (update_once_same_input rd st) as (En & _). congruence.
    + exists (fft_input ui).
      destruct (apply_settings_shape py_float ui st) as (En & _).
      rewrite En. apply reconfigured_nfft.
    + exists i. exact IH.
Qed.

Lemma reachable_window (st : WaterfallApp) :
  reachable py_float st -> window st = hanning (nfft st).
Proof.
  induction 1 as [|st ev _ IH].
  - destruct init_started as (t & f & r & E). now rewrite E.
  - destruct ev as [rd|ui|]; cbn [handle].
    + destruct (update_once_same_input rd st) as (En & Ew & _). congruence.
    + destruct (apply_settings_shape py_float ui st) as (En & Ew & _).
      rewrite En, Ew. unfold reconfigured. cbv zeta.
      destruct (Nat.eqb_spec (fft_item_size (fft_input ui)) (nfft st)) as [E|E];
        unfold_method; [exact IH|reflexivity].
    + exact IH.
Qed.

(** X11.  While the program runs, the FFT size is one of the four
    combo box entries, the matrix has 300 rows, the dynamic range is
    60 dB, and the window is the Hann window of the current size: its
    coefficients lie between 0 and 1 and the first and the last are 0. *)
Theorem running_window (st : WaterfallApp) :
  reachable py_float st ->
  (exists i, nfft st = fft_item_size i) /\
  length (waterfall st) = 300%nat /\
  dynamic_range_db st = 60 /\
  window st = hanning (nfft st) /\
  Forall (fun c => 0 <= c <= 1) (window st) /\
  nth 0 (window st) 0 = 0 /\
  last (window st) 0 = 0.
Proof.
  intros Hreach.
  destruct (reachable_size st Hreach) as (i & Hi).
  destruct (reachable_constants py_float st Hreach) as (_ & Hr & Hd).
  destruct (reachable_consistent py_float st Hreach) as (_ & Hlen & _).
  pose proof (reachable_window st Hreach) as Hw.
  split; [now exists i|]. split; [congruence|]. split; [rewrite Hd; lra|].
  split; [exact Hw|]. rewrite Hw.
  split; [apply hanning_bounds|].
  apply hanning_ends. rewrite Hi.
  pose proof (fft_item_size_ge i). lia.
Qed.

(** X13.  While the program runs and the window is not closing, a tick
    on a block of [nfft] samples never raises: the spectrum exists, the
    row is stored, the matrix keeps its 300 rows of [nfft] bins, and the
    array handed to the image is the matrix as it is after the tick. *)
Theorem tick_completes (st : WaterfallApp) (iq : list C) :
  reachable py_float st ->
  closing st = false ->
  length iq = nfft st ->
  exists p st',
    power_spectrum (nfft st) (window st) iq = Ok p /\
    update_once (Samples iq) st = (Ok tt, st') /\
    consistent st' /\
    length (waterfall st') = 300%nat /\
    image (img st') = Some (waterfall st').
Proof.
  intros Hreach Hc Hiq.
  pose proof (reachable_consistent py_float st Hreach) as Hcons.
  destruct (reachable_constants py_float st Hreach) as (Hn & Hr & _).
  destruct (power_spectrum_total (nfft st) (window st) iq
              (proj1 Hcons) Hiq Hn) as (p & Hp & Hlen).
  exists p, (after_tick st p).
  split; [exact Hp|].
  split; [apply update_once_ok; auto; lia|].
  assert (Hcons' : consistent (after_tick st p))
    by (apply after_tick_consistent; auto; lia).
  split; [exact Hcons'|]. split.
  - destruct Hcons' as (_ & Hrows & _). rewrite Hrows.
    destruct (after_tick_frame st p) as (_ & _ & Er & _). congruence.
  - unfold after_tick. unfold_method. reflexivity.
Qed.

End Running.

Lemma running_window_witness :
  let st := snd (init init_fields) in
  (exists i, nfft st = fft_item_size i) /\
  length (waterfall st) = 300%nat /\
  dynamic_range_db st = 60 /\
  window st = hanning (nfft st) /\
  Forall (fun c => 0 <= c <= 1) (window st) /\
  nth 0 (window st) 0 = 0 /\
  last (window st) 0 = 0.
Proof.
  apply (running_window float_none (snd (init init_fields))).
  apply reach_init.
Defined.

Lemma tick_completes_witness :
  let st := snd (init init_fields) in
  exists p st',
    power_spectrum (nfft st) (window st) (repeat zero 2048) = Ok p /\
    update_once (Samples (repeat zero 2048)) st = (Ok tt, st') /\
    consistent st' /\
    length (waterfall st') = 300%nat /\
    image (img st') = Some (waterfall st').
Proof.
  apply (tick_completes float_none (snd (init init_fields)) (repeat zero 2048)).
  - apply reach_init.
  - apply init_open.
  - destruct init_started as (t & f & r & E). rewrite E. reflexivity.
Defined.

(* ================================================================== *)
(** * Further properties of [apply_settings] and [closeEvent] *)

Lemma new_gain_idempotent (py_float : string -> option R) (text : string)
  (g : gain_t) :
  new_gain py_float text (new_gain py_float text g) = new_gain py_float text g.
Proof.
  unfold new_gain. cbv zeta.
  destruct (String.eqb _ "auto"); [reflexivity|].
  destruct (py_float _); reflexivity.
Qed.

Lemma repeat_tl {A} (x : A) (n : nat) : tl (repeat x n) = repeat x (n - 1).
Proof. destruct n; simpl; [reflexivity|now rewrite Nat.sub_0_r]. Qed.

Section Applying.

Variable py_float : string -> option R.

(** What [apply_settings] leaves when the spin boxes are in range. *)
Lemma apply_settings_in_range (ui : Widgets) (st : WaterfallApp) :
  widgets_in_range ui ->
  let r0 := reconfigured py_float ui st in
  let n := nfft r0 in
  let f := map (fun i => ((INR i - INR (n / 2)) * (sample_rate (sdr r0) / INR n)
                          + center_freq (sdr r0)) / 1e6) (seq 0 n) in
  apply_settings py_float ui st
  = (Ok tt,
     set_img (mkImageItem (image (img st))
                (Some (nth 0 f 0, 0, last f 0 - nth 0 f 0,
                       INR (waterfall_rows st))))
       (set_freqs_mhz f
          (set_timer (mkQTimer true (Z.quot 1000 (fps_input ui))) r0))).
Proof.
  intros (Hfreq & Hsr & Hfps). cbv zeta.
  set (r0 := reconfigured py_float ui st).
  assert (Hfps0 : fps r0 = fps_input ui).
  { unfold r0, reconfigured. cbv zeta. unfold_method. reflexivity. }
  assert (Hrate : sample_rate (sdr r0) = sr_input ui * 1e6).
  { unfold r0, reconfigured. cbv zeta. destruct (_ =? _)%nat; reflexivity. }
  assert (Himg : image (img r0) = image (img st)).
  { unfold r0, reconfigured. cbv zeta. destruct (_ =? _)%nat; reflexivity. }
  assert (Hrows : waterfall_rows r0 = waterfall_rows st).
  { unfold r0, reconfigured. cbv zeta. destruct (_ =? _)%nat; reflexivity. }
  assert (Hn : nfft r0 = fft_item_size (fft_input ui))
    by apply reconfigured_nfft.
  rewrite apply_settings_unfold. fold r0. unfold bind.
  rewrite timer_start_ok by (rewrite Hfps0; lia).
  rewrite update_freq_axis_columns.
  - cbv zeta. unfold_method. now rewrite Hfps0, Himg, Hrows.
  - unfold_method. rewrite Hrate. lra.
  - unfold_method. rewrite Hn. apply fft_item_size_pos.
Qed.

(** X14.  With the spin boxes in their ranges, [apply_settings]
    completes whatever the gain text says.  Afterwards the axis has as
    many columns as the matrix is wide, the timer runs with a period of
    [1000 // fps] milliseconds, between 16 and 100, and the device has the
    requested centre frequency and sample rate. *)
Theorem apply_in_range_completes (ui : Widgets) (st : WaterfallApp) :
  widgets_in_range ui ->
  exists st',
    apply_settings py_float ui st = (Ok tt, st') /\
    length (freqs_mhz st') = nfft st' /\
    nfft st' = fft_item_size (fft_input ui) /\
    timer st' = mkQTimer true (Z.quot 1000 (fps_input ui)) /\
    (16 <= timer_interval (timer st') <= 100)%Z /\
    center_freq (sdr st') = freq_input ui * 1e6 /\
    sample_rate (sdr st') = sr_input ui * 1e6.
Proof.
  intros Hrange.
  eexists. split; [now apply apply_settings_in_range|].
  destruct Hrange as (_ & _ & Hfps).
  unfold_method.
  split; [now rewrite length_map, length_seq|].
  split; [apply reconfigured_nfft|].
  split; [reflexivity|]. split.
  - pose proof (Z.quot_le_mono 1000 1000 (fps_input ui)).
    assert (Hq : Z.quot 1000 (fps_input ui) = (1000 / fps_input ui)%Z)
      by (apply Z.quot_div_nonneg; lia).
    rewrite Hq. split.
    + apply Z.div_le_lower_bound; lia.
    + apply Z.div_le_upper_bound; lia.
  - unfold reconfigured. cbv zeta. destruct (_ =? _)%nat; split; reflexivity.
Qed.

(** X15.  A gain text that reads "auto" once white space (ASCII or
    not, as U+00A0) is taken off its ends and it is put in lower case
    (" AUTO ", "Auto", ...) switches the device to automatic gain, however
    the rest of [apply_settings] goes. *)
Theorem gain_auto_any_case (ui : Widgets) (st : WaterfallApp) :
  String.eqb (PyStr.lower (PyStr.strip (gain_input ui))) "auto" = true ->
  gain (sdr (snd (apply_settings py_float ui st))) = GainAuto.
Proof.
  intros Hauto.
  destruct (apply_settings_final py_float ui st) as (t & f & r & E).
  rewrite E. unfold_method.
  unfold reconfigured, new_gain. cbv zeta. rewrite Hauto.
  destruct (_ =? _)%nat; reflexivity.
Qed.

(** X16.  A gain text that is not "auto" and that [float] reads as the
    number [g] sets the device gain to [g], however the rest of
    [apply_settings] goes. *)
Theorem gain_number_applied (ui : Widgets) (st : WaterfallApp) (g : R) :
  String.eqb (PyStr.lower (PyStr.strip (gain_input ui))) "auto" = false ->
  py_float (PyStr.lower (PyStr.strip (gain_input ui))) = Some g ->
  gain (sdr (snd (apply_settings py_float ui st))) = GainDb g.
Proof.
  intros Hauto Hfloat.
  destruct (apply_settings_final py_float ui st) as (t & f & r & E).
  rewrite E. unfold_method.
  unfold reconfigured, new_gain. cbv zeta. rewrite Hauto, Hfloat.
  destruct (_ =? _)%nat; reflexivity.
Qed.

(** X17.  With the spin boxes in range, applying the same settings a
    second time changes nothing: the object after two calls is the object
    after one. *)
Theorem apply_twice (ui : Widgets) (st : WaterfallApp) :
  widgets_in_range ui ->
  snd (apply_settings py_float ui (snd (apply_settings py_float ui st)))
  = snd (apply_settings py_float ui st).
Proof.
  intros Hrange.
  rewrite (apply_settings_in_range ui st Hrange). cbv zeta. cbn [snd].
  assert (Hn : nfft (reconfigured py_float ui st) = fft_item_size (fft_input ui))
    by apply reconfigured_nfft.
  assert (Hsdr : sdr (reconfigured py_float ui st)
                 = mkRtlSdr (sr_input ui * 1e6) (freq_input ui * 1e6)
                     (new_gain py_float (gain_input ui) (gain (sdr st)))
                     (sdr_closed (sdr st))).
  { unfold reconfigured. cbv zeta. destruct (_ =? _)%nat; reflexivity. }
  assert (Hfps : fps (reconfigured py_float ui st) = fps_input ui).
  { unfold reconfigured. cbv zeta. destruct (_ =? _)%nat; reflexivity. }
  assert (Hrows : waterfall_rows (reconfigured py_float ui st)
                  = waterfall_rows st).
  { unfold reconfigured. cbv zeta. destruct (_ =? _)%nat; reflexivity. }
  set (r0 := reconfigured py_float ui st) in *. clearbody r0.
  set (im := image (img st)). clearbody im.
  destruct r0 as [cf sr gd n0 fp wr dr d w wf lv fm ig tm cl].
  cbn [nfft sdr fps waterfall_rows] in Hn, Hsdr, Hfps, Hrows. subst n0 d fp wr.
  unfold_method.
  match goal with |- snd (apply_settings _ _ ?s) = _ =>
    rewrite (apply_settings_in_range ui s Hrange) end.
  cbv zeta. cbn [snd].
  unfold reconfigured. cbv zeta. unfold_method.
  rewrite Nat.eqb_refl. unfold_method.
  rewrite new_gain_idempotent.
  reflexivity.
Qed.

(** X18.  A size change wipes the history.  After [apply_settings]
    with a size [n] different from the current one, the first tick on a
    block of [n] samples completes; the ceiling it leaves is the 99th
    percentile of the block's spectrum itself (nothing of the old level is
    mixed in), and the matrix is the fill value -120 in every row but the
    last, which holds the clipped spectrum. *)
Theorem size_change_then_tick (ui : Widgets) (st : WaterfallApp) (iq : list C) :
  fft_item_size (fft_input ui) <> nfft st ->
  closing st = false ->
  (0 < waterfall_rows st)%nat ->
  length iq = fft_item_size (fft_input ui) ->
  let n := fft_item_size (fft_input ui) in
  let st1 := snd (apply_settings py_float ui st) in
  exists p st2,
    power_spectrum n (hanning n) iq = Ok p /\
    update_once (Samples iq) st1 = (Ok tt, st2) /\
    db_max_smooth st2 = Some (percentile p 99) /\
    waterfall st2
    = repeat (repeat (-120.0) n) (waterfall_rows st - 1)
      ++ [map (clip (percentile p 99 - dynamic_range_db st) (percentile p 99)) p].
Proof.
  intros Hne Hc HR Hiq. cbv zeta.
  set (n := fft_item_size (fft_input ui)) in *.
  destruct (apply_settings_final py_float ui st) as (t & f & r & E).
  set (st1 := snd (apply_settings py_float ui st)) in *.
  assert (Hfields : nfft st1 = n /\ window st1 = hanning n /\
                    waterfall st1 = full (waterfall_rows st) n (-120.0) /\
                    db_max_smooth st1 = None /\ closing st1 = false /\
                    waterfall_rows st1 = waterfall_rows st /\
                    dynamic_range_db st1 = dynamic_range_db st).
  { rewrite E. unfold_method. unfold reconfigured. cbv zeta. fold n.
    apply Nat.eqb_neq in Hne. rewrite Hne. unfold_method.
    repeat split. exact Hc. }
  destruct Hfields as (En & Ew & Ewf & El & Ec & Er & Ed).
  assert (Hcons : consistent st1).
  { unfold consistent. rewrite En, Ew, Ewf, Er.
    split; [apply hanning_length|apply full_shape]. }
  destruct (power_spectrum_total n (hanning n) iq (hanning_length n) Hiq
              (fft_item_size_pos (fft_input ui))) as (p & Hp & Hlen).
  exists p, (after_tick st1 p).
  split; [exact Hp|]. split.
  - apply update_once_ok; try assumption; [lia|].
    now rewrite En, Ew.
  - split.
    + unfold after_tick. unfold_method. unfold tick_db_max. now rewrite El.
    + rewrite after_tick_waterfall, Ewf. unfold full. rewrite repeat_tl.
      unfold tick_row, tick_db_min, tick_db_max. now rewrite El, Ed.
Qed.

End Applying.

(** X19.  [closeEvent] always completes.  It sets the closing flag,
    stops the timer, marks the device closed and leaves the matrix, the
    level, the window and the size alone; a second [closeEvent] changes
    nothing more, and neither does any run of ticks after it. *)
Theorem close_is_final (st : WaterfallApp) (blocks : list (list C)) :
  exists st',
    closeEvent st = (Ok tt, st') /\
    closing st' = true /\
    timer_active (timer st') = false /\
    sdr_closed (sdr st') = true /\
    waterfall st' = waterfall st /\
    db_max_smooth st' = db_max_smooth st /\
    window st' = window st /\
    nfft st' = nfft st /\
    closeEvent st' = (Ok tt, st') /\
    run_ticks st' blocks = st'.
Proof.
  eexists. split; [unfold closeEvent; unfold_method; reflexivity|].
  repeat split.
  set (st' := set_sdr _ _).
  assert (Hc : closing st' = true) by reflexivity.
  clearbody st'.
  induction blocks as [|iq rest IH]; [reflexivity|].
  rewrite run_ticks_cons, update_once_closing by assumption. exact IH.
Qed.

Lemma apply_in_range_completes_witness :
  exists st',
    apply_settings float_35 ui_bad_gain small_app = (Ok tt, st') /\
    length (freqs_mhz st') = nfft st' /\
    nfft st' = fft_item_size (fft_input ui_bad_gain) /\
    timer st' = mkQTimer true (Z.quot 1000 (fps_input ui_bad_gain)) /\
    (16 <= timer_interval (timer st') <= 100)%Z /\
    center_freq (sdr st') = freq_input ui_bad_gain * 1e6 /\
    sample_rate (sdr st') = sr_input ui_bad_gain * 1e6.
Proof.
  apply (apply_in_range_completes float_35 ui_bad_gain small_app).
  unfold widgets_in_range, ui_bad_gain. simpl. repeat split; try lra; lia.
Defined.

Lemma gain_auto_any_case_witness :
  gain (sdr (snd (apply_settings float_35 ui_nbsp_auto small_app))) = GainAuto.
Proof.
  apply (gain_auto_any_case float_35 ui_nbsp_auto small_app). reflexivity.
Defined.

Lemma gain_number_applied_witness :
  gain (sdr (snd (apply_settings float_35 ui_same_size small_app))) = GainDb 35.
Proof.
  apply (gain_number_applied float_35 ui_same_size small_app 35);
    reflexivity.
Defined.

Lemma apply_twice_witness :
  snd (apply_settings float_35 ui_auto
         (snd (apply_settings float_35 ui_auto small_app)))
  = snd (apply_settings float_35 ui_auto small_app).
Proof.
  apply (apply_twice float_35 ui_auto small_app).
  unfold widgets_in_range, ui_auto. simpl. repeat split; try lra; lia.
Defined.

Lemma size_change_then_tick_witness :
  let n := fft_item_size (fft_input ui_bad_gain) in
  let st1 := snd (apply_settings float_35 ui_bad_gain small_app) in
  exists p st2,
    power_spectrum n (hanning n) (repeat zero 4096) = Ok p /\
    update_once (Samples (repeat zero 4096)) st1 = (Ok tt, st2) /\
    db_max_smooth st2 = Some (percentile p 99) /\
    waterfall st2
    = repeat (repeat (-120.0) n) (waterfall_rows small_app - 1)
      ++ [map (clip (percentile p 99 - dynamic_range_db small_app)
                 (percentile p 99)) p].
Proof.
  apply (size_change_then_tick float_35 ui_bad_gain small_app
           (repeat zero 4096)).
  - simpl. discriminate.
  - reflexivity.
  - simpl. lia.
  - apply repeat_length.
Defined.

(** X20.  [apply_settings], whatever the widgets hold and however it
    ends, never touches the row count, the dynamic range, the closing
    flag, the displayed array, the closed mark of the device, or the
    fields [center_freq_hz], [sample_rate_hz] and [gain_db], which keep
    the values the constructor gave them: the new settings go to the
    device only. *)
Theorem apply_never_touches (py_float : string -> option R) (ui : Widgets)
  (st : WaterfallApp) :
  let st' := snd (apply_settings py_float ui st) in
  waterfall_rows st' = waterfall_rows st /\
  dynamic_range_db st' = dynamic_range_db st /\
  closing st' = closing st /\
  image (img st') = image (img st) /\
  sdr_closed (sdr st') = sdr_closed (sdr st) /\
  center_freq_hz st' = center_freq_hz st /\
  sample_rate_hz st' = sample_rate_hz st /\
  gain_db st' = gain_db st.
Proof.
  cbv zeta.
  destruct (apply_settings_final py_float ui st) as (t & f & r & E).
  rewrite E. unfold reconfigured. cbv zeta.
  destruct (_ =? _)%nat; unfold_method; repeat split; reflexivity.
Qed.

Lemma INR_1024 : INR 1024 = 1024.
Proof. rewrite INR_IZR_INZ. reflexivity. Qed.

Lemma INR_2048 : INR 2048 = 2048.
Proof. rewrite INR_IZR_INZ. reflexivity. Qed.

(** X21.  The constructor completes.  The window it leaves is open and
    consistent, with a 300 by 2048 matrix filled with -120, no level yet
    and the timer running every 66 ms; its axis has 2048 columns, column 0
    at 93.7 MHz and column 2047 one bin (2.4 MHz / 2048) below
    96.1 MHz. *)
Theorem constructed_window :
  exists st0,
    init init_fields = (Ok tt, st0) /\
    closing st0 = false /\
    consistent st0 /\
    waterfall st0 = full 300 2048 (-120.0) /\
    db_max_smooth st0 = None /\
    timer st0 = mkQTimer true 66 /\
    length (freqs_mhz st0) = 2048%nat /\
    nth 0 (freqs_mhz st0) 0 = 93.7 /\
    nth 2047 (freqs_mhz st0) 0 * 1e6 = 96.1e6 - 2.4e6 / 2048.
Proof.
  assert (Hcons : consistent (snd (init init_fields))) by apply init_consistent.
  revert Hcons. unfold init, bind.
  rewrite update_freq_axis_columns
    by (unfold init_fields; unfold_method; first [lra|lia]).
  cbv zeta.
  rewrite timer_start_ok by (unfold init_fields; unfold_method; lia).
  unfold modify. cbn [snd]. intros Hcons.
  eexists. split; [reflexivity|].
  split; [reflexivity|]. split; [exact Hcons|].
  split; [reflexivity|]. split; [reflexivity|]. split; [reflexivity|].
  unfold init_fields. unfold_method.
  split; [now rewrite length_map, length_seq|].
  assert (Hh : (2048 / 2 = 1024)%nat) by reflexivity.
  rewrite !nth_map_seq by lia.
  rewrite Hh, INR_1024, INR_2048.
  assert (H2047 : INR 2047 = 2047) by (rewrite INR_IZR_INZ; reflexivity).
  rewrite H2047. simpl INR. split; lra.
Qed.

(** X22.  The widgets start out showing the constructor's own
    settings: pressing Apply on the freshly constructed window without
    touching a widget completes and leaves the window exactly as it
    was. *)
Theorem apply_defaults_changes_nothing (py_float : string -> option R) :
  apply_settings py_float initial_widgets (snd (init init_fields))
  = (Ok tt, snd (init init_fields)).
Proof.
  assert (Hrange : widgets_in_range initial_widgets).
  { unfold widgets_in_range, initial_widgets. simpl. repeat split; try lra; lia. }
  assert (Hn : nfft init_fields = 2048%nat) by reflexivity.
  assert (Hs : sdr init_fields = mkRtlSdr 2.4e6 94.9e6 GainAuto false)
    by reflexivity.
  assert (Hf : fps init_fields = 15%Z) by reflexivity.
  assert (Hi : img init_fields = mkImageItem None None) by reflexivity.
  revert Hn Hs Hf Hi. generalize init_fields.
  intros [cf sr gd n0 fp wr dr d w wf lv fm ig tm cl].
  cbn [nfft sdr fps img]. intros -> -> -> ->.
  unfold init, bind.
  rewrite update_freq_axis_columns by (unfold_method; first [lra|lia]).
  cbv zeta.
  rewrite timer_start_ok by (unfold_method; lia).
  unfold modify. cbn [snd]. unfold_method.
  cbv beta iota delta [set_closing set_timer set_img set_freqs_mhz
                        center_freq_hz sample_rate_hz gain_db nfft fps
                        waterfall_rows dynamic_range_db sdr window waterfall
                        db_max_smooth freqs_mhz img timer closing image rect].
  set (F := map _ (seq 0 2048)).
  match goal with |- apply_settings _ _ ?s = _ => set (st0 := s) end.
  rewrite (apply_settings_in_range py_float initial_widgets st0 Hrange).
  cbv zeta. f_equal.
  assert (Hr : reconfigured py_float initial_widgets st0 = st0).
  { unfold reconfigured, new_gain, initial_widgets, st0. cbv zeta.
    cbn [freq_input sr_input gain_input fft_input fps_input].
    unfold_method.
    change (PyStr.lower (PyStr.strip "auto")) with "auto"%string.
    change (String.eqb "auto" "auto") with true.
    change (fft_item_size Fft2048 =? 2048)%nat with true.
    cbv beta iota delta [set_fps set_sdr
                          center_freq_hz sample_rate_hz gain_db nfft fps
                          waterfall_rows dynamic_range_db sdr window waterfall
                          db_max_smooth freqs_mhz img timer closing].
    replace (2.4e6 / 1e6 * 1e6) with 2.4e6 by lra.
    replace (94.9e6 / 1e6 * 1e6) with 94.9e6 by lra.
    reflexivity. }
  rewrite Hr.
  unfold st0, initial_widgets.
  cbv beta iota delta [set_closing set_timer set_img set_freqs_mhz
                        center_freq_hz sample_rate_hz gain_db nfft fps
                        waterfall_rows dynamic_range_db sdr window waterfall
                        db_max_smooth freqs_mhz img timer closing image rect
                        sample_rate center_freq fps_input].
  fold F.
  reflexivity.
Qed.
